(** * Pagila RAG backend: a shallow embedding of [backend/agent.py] and
    [backend/api.py], and the properties of its fallback parser, its agent
    cache, its database singleton and its two HTTP endpoints. *)

From Stdlib Require Import Ascii String ZArith List Lia Bool Sorted.
From stdpp Require Import base option list gmap strings pretty.

Local Open Scope Z_scope.
Local Open Scope nat_scope.

(** ** Python values used by the two modules *)

Module Py.

(** Exception classes that occur in the two modules.  [SystemExit] derives
    from [BaseException] only; every other class derives from [Exception]. *)
Inductive exn_class : Type :=
| SystemExit
| ValueError
| IndexError
| AttributeError
| TypeError
| JSONDecodeError
| ConnectionError
| RateLimitError
| RuntimeError
| HTTPException (status_code : Z).

(** An exception object: its class and the text [str] gives for it. *)
Record exn : Type := Exn { exn_cls : exn_class; exn_text : string }.

Definition str (e : exn) : string := exn_text e.

(** [isinstance(e, Exception)] *)
Definition is_Exception (e : exn) : bool :=
  match exn_cls e with
  | SystemExit => false
  | _ => true
  end.

(** [isinstance(e, openai.RateLimitError)] *)
Definition is_RateLimitError (e : exn) : bool :=
  match exn_cls e with
  | RateLimitError => true
  | _ => false
  end.

(** [sys.exit(1)] raises [SystemExit(1)]. *)
Definition sys_exit_1 : exn := Exn SystemExit "1".

(** What evaluating an expression gives: a value, or a raised exception. *)
Inductive outcome (A : Type) : Type :=
| Return (a : A)
| Raise (e : exn).
Global Arguments Return {A} a.
Global Arguments Raise {A} e.

Definition obind {A B} (c : outcome A) (k : A → outcome B) : outcome B :=
  match c with
  | Return a => k a
  | Raise e => Raise e
  end.

(** *** [str] methods

    A text is the [string] of the bytes of its UTF-8 encoding.  Every
    text the two modules search for is ASCII, and in UTF-8 an ASCII byte
    is always the character itself, so searching, splitting, testing the
    end and appending do to the bytes what Python does to the
    characters.  White space is removed character by character, each
    character as the bytes that encode it. *)

(** [s.startswith(p)] *)
Definition startswith (s p : string) : bool := String.prefix p s.

(** [s.find(sub)]: the lowest index where [sub] occurs, [None] for -1. *)
Fixpoint find (s sub : string) : option nat :=
  if String.prefix sub s then Some 0
  else match s with
       | EmptyString => None
       | String _ s' => S <$> find s' sub
       end.

(** [sub in s] *)
Definition contains (sub s : string) : bool :=
  match find s sub with
  | Some _ => true
  | None => false
  end.

(** [s[i:]] for [0 <= i] *)
Fixpoint slice_from (i : nat) (s : string) : string :=
  match i, s with
  | O, _ => s
  | S _, EmptyString => EmptyString
  | S i', String _ s' => slice_from i' s'
  end.

(** [s[:j]] for [0 <= j] *)
Fixpoint slice_to (j : nat) (s : string) : string :=
  match j, s with
  | O, _ => EmptyString
  | S _, EmptyString => EmptyString
  | S j', String c s' => String c (slice_to j' s')
  end.

(** [s[:-1]]: the index -1 stands for [len(s) - 1], clipped at 0. *)
Definition drop_last (s : string) : string :=
  slice_to (String.length s - 1) s.

(** [s.endswith(suffix)] *)
Definition endswith (s suffix : string) : bool :=
  (String.length suffix <=? String.length s)
  && String.eqb (slice_from (String.length s - String.length suffix) s) suffix.

(** [s.split(sep, maxsplit)] for a non-empty [sep] and [0 <= maxsplit]:
    cut at the leftmost occurrence, go on behind it, at most [maxsplit]
    times. *)
Fixpoint splitn (maxsplit : nat) (s sep : string) : list string :=
  match maxsplit with
  | O => [s]
  | S k =>
      match find s sep with
      | None => [s]
      | Some j =>
          slice_to j s :: splitn k (slice_from (j + String.length sep) s) sep
      end
  end.

(** [s.split(sep)]: no bound on the number of cuts; a string of length [n]
    has at most [n] occurrences of a non-empty separator.  An empty
    separator is a [ValueError]. *)
Definition split (s sep : string) : outcome (list string) :=
  match sep with
  | EmptyString => Raise (Exn ValueError "empty separator")
  | _ => Return (splitn (String.length s) s sep)
  end.

(** The bytes of the UTF-8 encoding of the code point [cp]. *)
Definition utf8 (cp : N) : string :=
  if (cp <? 128)%N then
    String (ascii_of_N cp) EmptyString
  else if (cp <? 2048)%N then
    String (ascii_of_N (192 + cp / 64))
      (String (ascii_of_N (128 + cp mod 64)) EmptyString)
  else if (cp <? 65536)%N then
    String (ascii_of_N (224 + cp / 4096))
      (String (ascii_of_N (128 + (cp / 64) mod 64))
         (String (ascii_of_N (128 + cp mod 64)) EmptyString))
  else
    String (ascii_of_N (240 + cp / 262144))
      (String (ascii_of_N (128 + (cp / 4096) mod 64))
         (String (ascii_of_N (128 + (cp / 64) mod 64))
            (String (ascii_of_N (128 + cp mod 64)) EmptyString))).

(** The code points [c] with [c.isspace()], which [str.strip()] removes:
    U+0009 to U+000D, U+001C to U+0020, U+0085, U+00A0, U+1680, U+2000
    to U+200A, U+2028, U+2029, U+202F, U+205F and U+3000. *)
Definition whitespace : list N :=
  [ 9; 10; 11; 12; 13; 28; 29; 30; 31; 32; 133; 160; 5760;
    8192; 8193; 8194; 8195; 8196; 8197; 8198; 8199; 8200; 8201; 8202;
    8232; 8233; 8239; 8287; 12288 ]%N.

(** What follows the white space character [s] begins with, if it
    begins with one. *)
Definition after_space (s : string) : option string :=
  match List.filter (λ cp, String.prefix (utf8 cp) s) whitespace with
  | cp :: _ => Some (slice_from (String.length (utf8 cp)) s)
  | [] => None
  end.

(** What precedes the white space character [s] ends with, if it ends
    with one. *)
Definition before_space (s : string) : option string :=
  match List.filter (λ cp, endswith s (utf8 cp)) whitespace with
  | cp :: _ =>
      Some (slice_to (String.length s - String.length (utf8 cp)) s)
  | [] => None
  end.

(** Drop leading white space characters, at most [n] of them. *)
Fixpoint lstrip_n (n : nat) (s : string) : string :=
  match n with
  | O => s
  | S n' =>
      match after_space s with
      | Some rest => lstrip_n n' rest
      | None => s
      end
  end.

(** Drop trailing white space characters, at most [n] of them. *)
Fixpoint rstrip_n (n : nat) (s : string) : string :=
  match n with
  | O => s
  | S n' =>
      match before_space s with
      | Some rest => rstrip_n n' rest
      | None => s
      end
  end.

(** [s.lstrip()] and [s.rstrip()]: a text of [n] bytes has at most [n]
    characters. *)
Definition lstrip (s : string) : string := lstrip_n (String.length s) s.
Definition rstrip (s : string) : string := rstrip_n (String.length s) s.

(** [s.strip()] *)
Definition strip (s : string) : string := rstrip (lstrip s).

(** The line feed and the double quote. *)
Definition nl : string := String (ascii_of_nat 10) EmptyString.
Definition dq : string := String (ascii_of_nat 34) EmptyString.
Definition quoted (s : string) : string := dq +:+ s +:+ dq.

(** The text whose lines are [ls], each ended by a line feed. *)
Definition unlines (ls : list string) : string :=
  foldr (λ l acc, l +:+ nl +:+ acc) EmptyString ls.

(** [l[i]] for [0 <= i] *)
Definition getitem {A} (l : list A) (i : nat) : outcome A :=
  match l !! i with
  | Some x => Return x
  | None => Raise (Exn IndexError "list index out of range")
  end.

End Py.

Import Py.

Declare Scope pure_scope.
Delimit Scope pure_scope with pure.
Declare Scope proc_scope.
Delimit Scope proc_scope with proc.

Notation "'do' x <- c ; k" := (obind c (fun x => k))
  (at level 10, x name, c at level 100, k at level 200, only parsing)
  : pure_scope.

(** ** [backend/agent.py]: the fallback parser *)

Module Sanitizer.

Local Open Scope pure_scope.

(** The text tested with [in]. *)
Definition marker_head : string := "Could not parse LLM output:".

(** The text the error string is split on. *)
Definition marker : string := "Could not parse LLM output: `".

Definition repeat_prefix : string :=
  "Output parsed but format incorrect. Please repeat this EXACT answer with the prefix 'Final Answer:': ".

Definition safe_message (error_str : string) : string :=
  "Error: " +:+ error_str +:+
  ". Please check your output format. If you have the answer, output it as 'Final Answer: [your answer]'.".

(** The body of the [try] block: [Return (Some r)] when it returns [r],
    [Return None] when control falls through to the end of the block. *)
Definition fallback_try (error_str : string) : outcome (option string) :=
  if contains marker_head error_str then
    do parts <- split error_str marker;
    if 1 <? length parts then
      do response <- getitem parts 1;
      let response :=
        if endswith response "`" then drop_last response else response in
      Return (Some (repeat_prefix +:+ response))
    else Return None
  else Return None.

(** [except Exception: pass] absorbs what derives from [Exception]. *)
Definition fallback_handler (error : exn) : outcome string :=
  let error_str := str error in
  match fallback_try error_str with
  | Return (Some answer) => Return answer
  | Return None => Return (safe_message (str error))
  | Raise e =>
      if is_Exception e then Return (safe_message (str error)) else Raise e
  end.

End Sanitizer.

Import Sanitizer.

(** ** The state of the server process *)

Module Process.

(** [ChatOpenAI(model=..., openai_api_key=..., openai_api_base=...,
    temperature=...)] *)
Record ChatOpenAI : Type := {
  llm_model : string;
  openai_api_key : string;
  openai_api_base : option string;
  temperature : Z
}.

(** A [SQLDatabase] object; [db_id] is its identity. *)
Record SQLDatabase : Type := {
  db_id : nat;
  db_uri : string;
  dialect : string
}.

Record Tool : Type := { tool_name : string; tool_description : string }.

Record SQLDatabaseToolkit : Type := {
  toolkit_db : SQLDatabase;
  toolkit_llm : ChatOpenAI
}.

(** The agent executor [create_sql_agent] returns; [agent_id] is its
    identity. *)
Record AgentExecutor : Type := {
  agent_id : nat;
  agent_llm : ChatOpenAI;
  agent_toolkit : SQLDatabaseToolkit;
  agent_verbose : bool;
  agent_type : string;
  handle_parsing_errors : bool;
  agent_prefix : string
}.

Definition agent_db (a : AgentExecutor) : SQLDatabase :=
  toolkit_db (agent_toolkit a).

(** Calls into the agent framework that build something. *)
Inductive lib_call : Type :=
| ChatOpenAI_init
| SQLDatabaseToolkit_init
| Toolkit_get_tools
| Create_sql_agent.

(** What lies outside the process: the environment after [load_dotenv()],
    the database server and the framework. *)
Record World : Type := {
  environ : gmap string string;
  (** [SQLDatabase.from_uri(uri)]: the dialect of the new handle, or the
      exception raised *)
  from_uri : string → outcome string;
  (** [db.get_usable_table_names()] *)
  usable_table_names : outcome (list string);
  (** the tools of a toolkit *)
  toolkit_tools : list Tool;
  (** the exception a framework call raises, if it does *)
  lib_raises : lib_call → option exn
}.

(** What the process does that can be seen from outside. *)
Inductive event : Type :=
| Print (line : string)
| Traceback (e : exn)
| Connect (db : SQLDatabase)
| Construct (model_name : string) (agent : AgentExecutor).

Record State : Type := {
  world : World;
  (** [agent._db_instance] *)
  _db_instance : option SQLDatabase;
  (** [api.agent_cache] *)
  agent_cache : gmap string AgentExecutor;
  (** the identity the next object gets *)
  next_id : nat;
  (** events so far, oldest first *)
  events : list event
}.

(** Both modules just loaded: no database handle, an empty cache. *)
Definition initial (w : World) : State :=
  {| world := w; _db_instance := None; agent_cache := ∅;
     next_id := 0; events := [] |}.

Definition with_world (w : World) (st : State) : State :=
  {| world := w; _db_instance := _db_instance st;
     agent_cache := agent_cache st; next_id := next_id st;
     events := events st |}.

(** A computation of the process: it may raise, and changes the state. *)
Definition M (A : Type) : Type := State → outcome A * State.

Definition ret {A} (a : A) : M A := λ st, (Return a, st).

Definition bind {A B} (c : M A) (k : A → M B) : M B :=
  λ st, match c st with
        | (Return a, st') => k a st'
        | (Raise e, st') => (Raise e, st')
        end.

Definition raise {A} (e : exn) : M A := λ st, (Raise e, st).

Definition lift {A} (o : outcome A) : M A := λ st, (o, st).

(** [try: c  except Exception as e: h e] *)
Definition try_except {A} (c : M A) (h : exn → M A) : M A :=
  λ st, match c st with
        | (Raise e, st') => if is_Exception e then h e st' else (Raise e, st')
        | r => r
        end.

Definition emit (ev : event) : M unit :=
  λ st, (Return tt,
         {| world := world st; _db_instance := _db_instance st;
            agent_cache := agent_cache st; next_id := next_id st;
            events := events st ++ [ev] |}).

Definition print (line : string) : M unit := emit (Print line).

(** [os.getenv(name)] *)
Definition getenv (name : string) : M (option string) :=
  λ st, (Return (environ (world st) !! name), st).

Definition fresh_id : M nat :=
  λ st, (Return (next_id st),
         {| world := world st; _db_instance := _db_instance st;
            agent_cache := agent_cache st; next_id := S (next_id st);
            events := events st |}).

(** A framework call that raises when the world says so. *)
Definition framework (c : lib_call) : M unit :=
  λ st, match lib_raises (world st) c with
        | Some e => (Raise e, st)
        | None => (Return tt, st)
        end.

Definition read_db_instance : M (option SQLDatabase) :=
  λ st, (Return (_db_instance st), st).

Definition write_db_instance (db : SQLDatabase) : M unit :=
  λ st, (Return tt,
         {| world := world st; _db_instance := Some db;
            agent_cache := agent_cache st; next_id := next_id st;
            events := events st |}).

Definition read_agent_cache : M (gmap string AgentExecutor) :=
  λ st, (Return (agent_cache st), st).

(** [agent_cache[model_name] = agent] *)
Definition store_agent (model_name : string) (agent : AgentExecutor) : M unit :=
  λ st, (Return tt,
         {| world := world st; _db_instance := _db_instance st;
            agent_cache := <[model_name := agent]> (agent_cache st);
            next_id := next_id st; events := events st |}).

(** [for x in l: body x] *)
Fixpoint for_each {A} (l : list A) (body : A → M unit) : M unit :=
  match l with
  | [] => ret tt
  | x :: l' => bind (body x) (λ _, for_each l' body)
  end.

(** A string or [None] in a test: [None] and the empty string are
    false, a non-empty string is true. *)
Definition truthy (v : option string) : option string :=
  match v with
  | None => None
  | Some EmptyString => None
  | Some s => Some s
  end.

(** [v or d] for [v] a string or [None] *)
Definition or_else (v : option string) (d : string) : string :=
  match v with
  | None => d
  | Some EmptyString => d
  | Some s => s
  end.

End Process.

Import Process.

Notation "'do' x <- c ; k" := (bind c (fun x => k))
  (at level 10, x name, c at level 100, k at level 200, only parsing)
  : proc_scope.

(** ** [backend/agent.py]: providers, the database handle, the agent *)

Module Agent.

Local Open Scope proc_scope.

(** The default of the [model_name] parameters. *)
Definition default_model : string := "mistralai/mistral-7b-instruct:free".

Definition new_ChatOpenAI (model_name api_key : string)
    (api_base : option string) (temp : Z) : M ChatOpenAI :=
  do _ <- framework ChatOpenAI_init;
  ret {| llm_model := model_name; openai_api_key := api_key;
         openai_api_base := api_base; temperature := temp |}.

(** Initialize the LLM using OpenRouter. *)
Definition get_llm (model_name : string) : M ChatOpenAI :=
  do api_key <- getenv "OPENROUTER_API_KEY";
  match truthy api_key with
  | None =>
      do _ <- print "Error: OPENROUTER_API_KEY not found in .env";
      raise sys_exit_1
  | Some api_key =>
      new_ChatOpenAI model_name api_key
        (Some "https://openrouter.ai/api/v1") 0
  end.

(** Initialize the LLM using OpenAI directly. *)
Definition get_openai_llm (model_name : string) : M ChatOpenAI :=
  do api_key <- getenv "OPENAI_API_KEY";
  match truthy api_key with
  | None =>
      do _ <- print "Error: OPENAI_API_KEY not found in .env";
      raise (Exn ValueError "OPENAI_API_KEY not set in environment")
  | Some api_key => new_ChatOpenAI model_name api_key None 0
  end.

(** [SQLDatabase.from_uri(db_uri)] *)
Definition SQLDatabase_from_uri (uri : string) : M SQLDatabase :=
  λ st, match from_uri (world st) uri with
        | Raise e => (Raise e, st)
        | Return d =>
            (do id <- fresh_id;
             let db := {| db_id := id; db_uri := uri; dialect := d |} in
             do _ <- emit (Connect db);
             ret db) st
        end.

(** [db.get_usable_table_names()] *)
Definition get_usable_table_names (db : SQLDatabase) : M (list string) :=
  λ st, (usable_table_names (world st), st).

(** Connect to the PostgreSQL database.  A [SQLDatabase] object is true
    in a test, so [if _db_instance:] asks whether a handle is stored. *)
Definition get_db : M SQLDatabase :=
  do instance <- read_db_instance;
  match instance with
  | Some db => ret db
  | None =>
      do db_uri <- getenv "POSTGRES_DB_URI";
      match truthy db_uri with
      | None =>
          do _ <- print "Error: POSTGRES_DB_URI not found in .env";
          raise sys_exit_1
      | Some db_uri =>
          try_except
            (do db <- SQLDatabase_from_uri db_uri;
             do _ <- print "Successfully connected to the database.";
             do _ <- print ("Dialect: " +:+ dialect db);
             do names <- get_usable_table_names db;
             do _ <- print ("Usable tables: " +:+ pretty (length names));
             do _ <- write_db_instance db;
             ret db)
            (λ e,
             do _ <- print ("Error connecting to database: " +:+ str e);
             raise sys_exit_1)
      end
  end.

Definition new_SQLDatabaseToolkit (db : SQLDatabase) (llm : ChatOpenAI)
    : M SQLDatabaseToolkit :=
  do _ <- framework SQLDatabaseToolkit_init;
  ret {| toolkit_db := db; toolkit_llm := llm |}.

(** [toolkit.get_tools()] *)
Definition get_tools (toolkit : SQLDatabaseToolkit) : M (list Tool) :=
  do _ <- framework Toolkit_get_tools;
  λ st, (Return (toolkit_tools (world st)), st).

Definition custom_prefix : string :=
  unlines
    [ "You are an agent designed to interact with a SQL database.";
      "Given an input question, create a syntactically correct {dialect} query to run, then look at the results of the query and return the answer.";
      "Unless the user specifies a specific number of examples they wish to obtain, always limit your query to at most {top_k} results.";
      "You can order the results by a relevant column to return the most interesting examples in the database.";
      "Never query for all the columns from a specific table, only ask for the relevant columns given the question.";
      "You have access to tools for interacting with the database.";
      "Only use the below tools. Only use the information returned by the below tools to construct your final answer.";
      "You MUST double check your query before executing it. If you get an error while executing a query, rewrite the query and try again.";
      "";
      "DO NOT make any DML statements (INSERT, UPDATE, DELETE, DROP etc.) to the database.";
      "";
      "IMPORTANT:";
      "- If the user greets you (e.g., " +:+ quoted "hi" +:+ ", "
        +:+ quoted "hello" +:+ "), reply with: "
        +:+ quoted "Final Answer: Hello! I am your Pagila Database Assistant. I can help you find movies, actors, and rental information.";
      "- If the user asks what this is or what you can do (e.g., "
        +:+ quoted "what is this about?" +:+ ", "
        +:+ quoted "explain this database" +:+ ", "
        +:+ quoted "what tables are there?" +:+ "), reply with: "
        +:+ quoted "Final Answer: This is the Pagila database, which models a DVD rental store. It contains 1000 films, along with actors, customers, and rental history. You can ask me questions like 'How many movies are rated PG?' or 'Who is the most popular actor?'.";
      "- If the question is not related to the database (e.g., "
        +:+ quoted "what is the capital of France?" +:+ "), reply with: "
        +:+ quoted "Final Answer: I can only answer questions related to the movie database. Please ask about films, actors, or store inventory.";
      "" ].

(** [create_sql_agent(llm=..., toolkit=..., verbose=..., agent_type=...,
    agent_executor_kwargs={"handle_parsing_errors": ...}, prefix=...)] *)
Definition create_sql_agent (llm : ChatOpenAI)
    (toolkit : SQLDatabaseToolkit) (verbose : bool) (type : string)
    (parsing : bool) (prefix : string) : M AgentExecutor :=
  do _ <- framework Create_sql_agent;
  do id <- fresh_id;
  let agent :=
    {| agent_id := id; agent_llm := llm; agent_toolkit := toolkit;
       agent_verbose := verbose; agent_type := type;
       handle_parsing_errors := parsing; agent_prefix := prefix |} in
  do _ <- emit (Construct (llm_model llm) agent);
  ret agent.

(** [tool.description.strip().split('.')[0]] *)
Definition first_sentence (description : string) : outcome string :=
  (do parts <- split (strip description) ".";
   getitem parts 0)%pure.

(** Create the SQL Agent for Pagila. *)
Definition create_pagila_agent (model_name : string) : M AgentExecutor :=
  do llm <-
    (if startswith model_name "gpt-" then
       do _ <- print ("Using OpenAI provider for model: " +:+ model_name);
       get_openai_llm model_name
     else
       do _ <- print ("Using OpenRouter provider for model: " +:+ model_name);
       get_llm model_name);
  do db <- get_db;
  do toolkit <- new_SQLDatabaseToolkit db llm;
  do tools <- get_tools toolkit;
  do _ <- print (nl +:+ "--- Agent Tools (" +:+ pretty (length tools)
                 +:+ ") ---");
  do _ <- for_each tools (λ tool,
            do sentence <- lift (first_sentence (tool_description tool));
            print ("- " +:+ tool_name tool +:+ ": " +:+ sentence));
  do _ <- print ("----------------------------" +:+ nl);
  create_sql_agent llm toolkit true "zero-shot-react-description"
    true custom_prefix.

End Agent.

Import Agent.

(** ** JSON values as Python sees them *)

Module Json.

Local Open Scope pure_scope.

#[local] Unset Elimination Schemes.
Inductive json : Type :=
| JNull
| JBool (b : bool)
| JNumber (literal : string)
| JString (s : string)
| JArray (items : list json)
| JObject (members : list (string * json)).
#[local] Set Elimination Schemes.

(** [d.get(key, default)] on a dict. *)
Fixpoint dict_get (members : list (string * json)) (key : string)
    (default : json) : json :=
  match members with
  | [] => default
  | (k, v) :: rest =>
      if String.eqb k key then v else dict_get rest key default
  end.

(** [v.get(key, default)]: only a dict has the method. *)
Definition py_get (v : json) (key : string) (default : json) : outcome json :=
  match v with
  | JObject members => Return (dict_get members key default)
  | _ => Raise (Exn AttributeError "object has no attribute 'get'")
  end.

Definition chars (s : string) : list json :=
  (λ c, JString (String c EmptyString)) <$> list_ascii_of_string s.

(** [for x in v]: a list gives its items, a dict its keys, a string its
    characters; nothing else can be iterated. *)
Definition py_iter (v : json) : outcome (list json) :=
  match v with
  | JArray items => Return items
  | JObject members => Return ((λ kv, JString kv.1) <$> members)
  | JString s => Return (chars s)
  | _ => Raise (Exn TypeError "object is not iterable")
  end.

(** [v == "0"] *)
Definition is_zero_text (v : json) : bool :=
  match v with
  | JString s => String.eqb s "0"
  | _ => false
  end.

(** [model.get("pricing", {}).get("prompt") == "0"
     and model.get("pricing", {}).get("completion") == "0"] *)
Definition is_free (model : json) : outcome bool :=
  do pricing <- py_get model "pricing" (JObject []);
  do prompt <- py_get pricing "prompt" JNull;
  if is_zero_text prompt then
    do pricing <- py_get model "pricing" (JObject []);
    do completion <- py_get pricing "completion" JNull;
    Return (is_zero_text completion)
  else Return false.

(** [[model for model in data if is_free(model)]] *)
Fixpoint keep_free (data : list json) : outcome (list json) :=
  match data with
  | [] => Return []
  | model :: rest =>
      do keep <- is_free model;
      do kept <- keep_free rest;
      Return (if keep : bool then model :: kept else kept)
  end.

(** [lambda x: x.get("name", "")] *)
Definition name_key (x : json) : outcome json := py_get x "name" (JString "").

End Json.

Import Json.

(** ** [backend/api.py] *)

Module Api.

Local Open Scope proc_scope.

(** *** The agent cache *)

Definition get_agent_for_model (model_name : string)
    : M (option AgentExecutor) :=
  do cache <- read_agent_cache;
  match cache !! model_name with
  | Some agent => ret (Some agent)
  | None =>
      try_except
        (do _ <- print ("Initializing agent for model: " +:+ model_name);
         do agent <- create_pagila_agent model_name;
         do _ <- store_agent model_name agent;
         ret (Some agent))
        (λ e,
         do _ <- print ("Failed to initialize agent for " +:+ model_name
                        +:+ ": " +:+ str e);
         ret None)
  end.

(** The statements the module runs when it is imported: the cache starts
    empty and the default agent is initialised. *)
Definition module_body : M unit :=
  do _ <- get_agent_for_model "mistralai/mistral-7b-instruct:free";
  ret tt.

(** What [requests.get(url)] returned: the status and what
    [response.json()] gives. *)
Record Response : Type := {
  status_code : Z;
  response_json : outcome json
}.

Definition openai_models : list json :=
  [ JObject [("id", JString "gpt-4o-mini"); ("name", JString "OpenAI GPT-4o Mini")];
    JObject [("id", JString "gpt-3.5-turbo"); ("name", JString "OpenAI GPT-3.5 Turbo")];
    JObject [("id", JString "gpt-4o"); ("name", JString "OpenAI GPT-4o")] ].

Section Endpoints.

(** [l.sort(key=f)] of the Python runtime: the sorted list, or the
    exception a key or a comparison raised. *)
Variable list_sort : (json → outcome json) → list json → outcome (list json).

(** Python floats, their difference and [round(x, ndigits)]. *)
Variable float : Type.
Variable float_sub : float → float → float.
Variable round : float → Z → float.

(** The [try] block of [get_models]: from the list so far to the list
    after it. *)
Definition fetch_free_models (models_list : list json)
    (fetched : outcome Response) : M (list json) :=
  do response <- lift fetched;
  if (status_code response =? 200)%Z then
    do body <- lift (response_json response);
    do data <- lift (py_get body "data" (JArray []));
    do models <- lift (py_iter data);
    do free_models <- lift (keep_free models);
    do free_models <- lift (list_sort name_key free_models);
    ret (models_list ++ free_models)
  else
    do _ <- print ("Warning: Failed to fetch OpenRouter models: "
                   +:+ pretty (status_code response));
    ret models_list.

(** Fetch free models from OpenRouter and add OpenAI models.
    [fetched] is what [requests.get] gives for the catalog. *)
Definition get_models (fetched : outcome Response) : M json :=
  let models_list := [] in
  let models_list := models_list ++ openai_models in
  do models_list <-
    try_except
      (fetch_free_models models_list fetched)
      (λ e,
       do _ <- print ("Warning: Could not connect to OpenRouter: " +:+ str e);
       ret models_list);
  ret (JObject [("models", JArray models_list)]).

(** [GET /] *)
Definition read_root : M json :=
  ret (JObject [("message", JString "Pagila RAG API is running")]).

Record QueryRequest : Type := {
  query : string;
  model : option string
}.

(** A request body without the [model] field. *)
Definition request_of_query (q : string) : QueryRequest :=
  {| query := q; model := Some "mistralai/mistral-7b-instruct:free" |}.

Record Metadata : Type := {
  metadata_model : string;
  metadata_duration : float
}.

Record QueryResponse : Type := {
  response : string;
  metadata : option Metadata
}.

(** What happens outside while one request is served: the two readings
    of the clock and what [agent.run] gives. *)
Record Invocation : Type := {
  time_before : float;
  agent_run : AgentExecutor → string → outcome string;
  time_after : float
}.

(** [POST /chat] *)
Definition chat (request : QueryRequest) (inv : Invocation)
    : M QueryResponse :=
  let model_name := or_else (model request) "mistralai/mistral-7b-instruct:free" in
  do agent <- get_agent_for_model model_name;
  match agent with
  | None =>
      raise (Exn (HTTPException 500)
               ("Failed to initialize agent for model " +:+ model_name))
  | Some agent =>
      try_except
        (let start_time := time_before inv in
         do response <- lift (agent_run inv agent (query request));
         let duration := float_sub (time_after inv) start_time in
         let model_name := or_else (model request) "Unknown Model" in
         ret {| response := response;
                metadata := Some {| metadata_model := model_name;
                                    metadata_duration := round duration 2 |} |})
        (λ e,
         do _ <- print "------------- ERROR IN CHAT ENDPOINT -------------";
         do _ <- emit (Traceback e);
         do _ <- print "--------------------------------------------------";
         if is_RateLimitError e then
           do _ <- print "The LLM Provider (OpenRouter) returned a 429 Rate Limit Error.";
           raise (Exn (HTTPException 429)
                    "Rate limit exceeded (429). The AI model is busy or you have run out of credits. Please try again in 10-20 seconds.")
         else
           raise (Exn (HTTPException 500) (str e)))
  end.

End Endpoints.

(** *** The server process *)

(** The agents the events say were built, with the model each was built
    for, oldest first. *)
Definition built (evs : list event) : list (string * AgentExecutor) :=
  omap (λ ev, match ev with
              | Construct m agent => Some (m, agent)
              | _ => None
              end) evs.

(** Those built for [model_name]. *)
Definition constructed (model_name : string) (evs : list event)
    : list AgentExecutor :=
  omap (λ p : string * AgentExecutor,
          if String.eqb p.1 model_name then Some p.2 else None) (built evs).

(** The database handles the events say were opened, oldest first. *)
Definition connected (evs : list event) : list SQLDatabase :=
  omap (λ ev, match ev with Connect db => Some db | _ => None end) evs.

(** An outcome the server catches when it is an exception: a value, or
    an exception that derives from [Exception]. *)
Definition ordinary {A} (o : outcome A) : Prop :=
  match o with
  | Return _ => True
  | Raise e => is_Exception e = true
  end.

(** The model a returned LLM client is for. *)
Definition for_model (m : string) (o : outcome ChatOpenAI) : Prop :=
  match o with
  | Return llm => llm_model llm = m
  | Raise _ => True
  end.

(** No agent came back: [None], or an exception. *)
Definition failed (o : outcome (option AgentExecutor)) : bool :=
  match o with
  | Return (Some _) => false
  | _ => true
  end.

(** The database handle and the handles opened, one step later: both as
    they were, or a first handle opened and stored. *)
Definition db_step (st st' : State) : Prop :=
  _db_instance st' = _db_instance st
  ∧ connected (events st') = connected (events st)
  ∨ _db_instance st = None
    ∧ ∃ db, _db_instance st' = Some db
            ∧ connected (events st') = connected (events st) ++ [db].

(** The world, the cache and the agents built are as they were. *)
Definition frame (st st' : State) : Prop :=
  world st' = world st
  ∧ agent_cache st' = agent_cache st
  ∧ built (events st') = built (events st).

(** The cache, the stored database handle and the events agree: the
    agents built for a model are the one cached for it, the handles
    opened are the one stored, and every cached agent holds the stored
    handle. *)
Definition consistent (st : State) : Prop :=
  (∀ m, constructed m (events st) = option_list (agent_cache st !! m))
  ∧ connected (events st) = option_list (_db_instance st)
  ∧ (∀ m agent, agent_cache st !! m = Some agent →
                _db_instance st = Some (agent_db agent)).

(** The state a call leaves behind, unless what it raised ends the
    process: an exception that is no [Exception] is not caught by the
    server. *)
Definition survives {A} (r : outcome A * State) : option State :=
  match r with
  | (Return _, st) => Some st
  | (Raise e, st) => if is_Exception e then Some st else None
  end.

(** Importing [backend.api]: the state the server starts from, when the
    import succeeds. *)
Definition boot (w : World) : option State :=
  match module_body (initial w) with
  | (Return _, st) => Some st
  | (Raise _, _) => None
  end.

Section Server.

Variable list_sort : (json → outcome json) → list json → outcome (list json).
Variable float : Type.
Variable float_sub : float → float → float.
Variable round : float → Z → float.

(** What reaches the process: a request, or a change outside it.
    Requests are handled one after the other. *)
Inductive input : Type :=
| GetRoot
| GetModels (fetched : outcome Response)
| PostChat (request : QueryRequest) (inv : Invocation float)
| Outside (w : World).

Definition step (i : input) (st : State) : option State :=
  match i with
  | GetRoot => survives (read_root st)
  | GetModels fetched => survives (get_models list_sort fetched st)
  | PostChat request inv => survives (chat float float_sub round request inv st)
  | Outside w => Some (with_world w st)
  end.

Fixpoint serve (inputs : list input) (st : State) : option State :=
  match inputs with
  | [] => Some st
  | i :: rest =>
      match step i st with
      | Some st' => serve rest st'
      | None => None
      end
  end.

(** The state after the import and then [inputs], while the process
    lives. *)
Definition process (w : World) (inputs : list input) : option State :=
  match boot w with
  | Some st => serve inputs st
  | None => None
  end.

(** The model identifiers the chat requests among [inputs] resolve. *)
Fixpoint resolved (inputs : list input) : list string :=
  match inputs with
  | [] => []
  | PostChat request _ :: rest =>
      or_else (model request) "mistralai/mistral-7b-instruct:free"
      :: resolved rest
  | _ :: rest => resolved rest
  end.

End Server.

End Api.

Import Api.

(** ** Occurrences of one text in another *)

Module Text.

(** [sub] occurs in [s] at index [i]. *)
Definition occurs_at (sub s : string) (i : nat) : Prop :=
  String.prefix sub (slice_from i s) = true.

(** The leftmost occurrence of [sub] in [s] is at index [j]. *)
Definition first_at (sub s : string) (j : nat) : Prop :=
  occurs_at sub s j ∧ ∀ i, i < j → ¬ occurs_at sub s i.

(** [sub] occurs nowhere in [s]. *)
Definition absent (sub s : string) : Prop := ∀ i, ¬ occurs_at sub s i.

(** No proper non-empty suffix of [sep] begins [sep]: two occurrences of
    [sep] never overlap. *)
Definition borderless (sep : string) : bool :=
  forallb (λ k, negb (String.prefix (slice_from k sep) sep))
    (seq 1 (String.length sep - 1)).

(** The piece behind the first cut: up to the next occurrence of the
    separator, or all that is left. *)
Definition up_to_next (sep rest : string) : string :=
  match find rest sep with
  | Some k => slice_to k rest
  | None => rest
  end.

(** A text of white space characters alone. *)
Inductive blank : string → Prop :=
| blank_nil : blank ""
| blank_cons (cp : N) (s : string) :
    cp ∈ whitespace → blank s → blank (utf8 cp +:+ s).

End Text.

Import Text.

(** ** [backend/agent.py] run as a script *)

Module Script.

Local Open Scope proc_scope.

(** The block under [if __name__ == "__main__":]; [run] is what
    [agent.run] gives. *)
Definition main_script (run : AgentExecutor → string → outcome string)
    : M unit :=
  do _ <- print "Initializing Pagila Agent...";
  try_except
    (do agent <- create_pagila_agent "mistralai/mistral-7b-instruct:free";
     let question := "How many films are there in the database?" in
     do _ <- print (nl +:+ "Processing query: " +:+ question);
     do response <- lift (run agent question);
     print (nl +:+ "Final Answer: " +:+ response))
    (λ e, print ("An error occurred: " +:+ str e)).

End Script.

Import Script.

(** ** Words for the properties of the providers and of the catalog *)

Module Vocabulary.

(** The state with [lines] printed after what was there. *)
Definition printed (lines : list string) (st : State) : State :=
  {| world := world st; _db_instance := _db_instance st;
     agent_cache := agent_cache st; next_id := next_id st;
     events := events st ++ (Print <$> lines) |}.

(** The state with [evs] after what was there. *)
Definition logged (evs : list event) (st : State) : State :=
  {| world := world st; _db_instance := _db_instance st;
     agent_cache := agent_cache st; next_id := next_id st;
     events := events st ++ evs |}.

(** The variable that holds the key of the provider of a model. *)
Definition key_variable (model_name : string) : string :=
  if startswith model_name "gpt-" then "OPENAI_API_KEY"
  else "OPENROUTER_API_KEY".

(** The base address the client of a model is given. *)
Definition base_of (model_name : string) : option string :=
  if startswith model_name "gpt-" then None
  else Some "https://openrouter.ai/api/v1".

(** A client as the provider of [m] is given one: for the model, with
    temperature 0, the base address of the provider and its key, which
    [env] holds and which is not empty. *)
Definition routed (env : gmap string string) (m : string)
    (llm : ChatOpenAI) : Prop :=
  llm_model llm = m
  ∧ temperature llm = 0%Z
  ∧ openai_api_base llm = base_of m
  ∧ env !! key_variable m = Some (openai_api_key llm)
  ∧ openai_api_key llm ≠ "".

(** What a missing key of the provider of a model raises. *)
Definition missing_key (model_name : string) : exn :=
  if startswith model_name "gpt-"
  then Exn ValueError "OPENAI_API_KEY not set in environment"
  else sys_exit_1.

(** The two lines printed when the key of the provider is missing. *)
Definition missing_key_lines (model_name : string) : list string :=
  if startswith model_name "gpt-"
  then [ "Using OpenAI provider for model: " +:+ model_name;
         "Error: OPENAI_API_KEY not found in .env" ]
  else [ "Using OpenRouter provider for model: " +:+ model_name;
         "Error: OPENROUTER_API_KEY not found in .env" ].

(** An entry of the catalog the filter can read: a dict whose
    [pricing], when it has one, is a dict. *)
Definition readable (entry : json) : bool :=
  match entry with
  | JObject members =>
      match dict_get members "pricing" (JObject []) with
      | JObject _ => true
      | _ => false
      end
  | _ => false
  end.

(** A readable entry whose two prices are the text [0]. *)
Definition priced_zero (entry : json) : bool :=
  match entry with
  | JObject members =>
      match dict_get members "pricing" (JObject []) with
      | JObject pricing =>
          is_zero_text (dict_get pricing "prompt" JNull)
          && is_zero_text (dict_get pricing "completion" JNull)
      | _ => false
      end
  | _ => false
  end.

(** An entry whose sort key, its [name] or the empty text when it has
    none, is a text. *)
Definition named (entry : json) : bool :=
  match name_key entry with
  | Return (JString _) => true
  | _ => false
  end.

(** The sort key of a named entry. *)
Definition name_of (entry : json) : string :=
  match name_key entry with
  | Return (JString s) => s
  | _ => ""
  end.

Definition has_name (n : string) (entry : json) : bool :=
  String.eqb (name_of entry) n.

(** [a <= b] on [str]: Python compares code point by code point, which
    is the order of the encoded bytes. *)
Definition name_le (x y : json) : Prop :=
  String.leb (name_of x) (name_of y) = true.

(** What Python gives for [l.sort(key=lambda x: x.get("name", ""))] on
    a list whose keys are all texts: the sort returns, with the same
    items, in ascending order of key, the items of one key in the order
    they had. *)
Definition sorts_by_name
    (list_sort : (json → outcome json) → list json → outcome (list json))
    : Prop :=
  ∀ l : list json,
    Forall (λ entry, named entry = true) l →
    ∃ sorted : list json,
      list_sort name_key l = Return sorted
      ∧ sorted ≡ₚ l
      ∧ StronglySorted name_le sorted
      ∧ ∀ n : string,
          List.filter (has_name n) sorted = List.filter (has_name n) l.

(** The three lines, or four, [chat] logs when the agent raised [e]. *)
Definition failure_log (e : exn) : list event :=
  [ Print "------------- ERROR IN CHAT ENDPOINT -------------";
    Traceback e;
    Print "--------------------------------------------------" ]
  ++ (if is_RateLimitError e
      then [Print "The LLM Provider (OpenRouter) returned a 429 Rate Limit Error."]
      else []).

(** What [chat] raises when the agent raised [e]. *)
Definition http_error (e : exn) : exn :=
  if is_RateLimitError e
  then Exn (HTTPException 429)
         "Rate limit exceeded (429). The AI model is busy or you have run out of credits. Please try again in 10-20 seconds."
  else Exn (HTTPException 500) (str e).

End Vocabulary.

Import Vocabulary.

(** ** One world, one sort and one clock, for running the definitions *)

Module Demo.

Definition demo_tools : list Tool :=
  [ {| tool_name := "sql_db_query";
       tool_description := "Input to this tool is a detailed and correct SQL query, output is a result from the database. If the query is not correct, an error message will be returned." |};
    {| tool_name := "sql_db_schema";
       tool_description := "Input to this tool is a comma-separated list of tables, output is the schema and sample rows for those tables." |};
    {| tool_name := "sql_db_list_tables";
       tool_description := "Input is an empty string, output is a comma-separated list of tables in the database." |};
    {| tool_name := "sql_db_query_checker";
       tool_description := " Use this tool to double check if your query is correct before executing it. " |} ].

(** Both keys of the routing provider and the database are configured,
    the key of the direct provider is not; the database answers and the
    framework raises nothing. *)
Definition demo_world : World :=
  {| environ :=
       {[ "OPENROUTER_API_KEY" := "sk-or-v1-0000";
          "POSTGRES_DB_URI" := "postgresql://postgres@localhost:5432/pagila" ]};
     from_uri := λ _, Return "postgresql";
     usable_table_names := Return ["actor"; "film"; "rental"];
     toolkit_tools := demo_tools;
     lib_raises := λ _, None |}.

(** [a < b] on keys: defined here for two texts. *)
Definition key_lt (a b : json) : outcome bool :=
  match a, b with
  | JString x, JString y => Return (String.ltb x y)
  | _, _ => Raise (Exn TypeError "'<' not supported between instances")
  end.

(** Put [x] with key [k] in front of the first entry whose key is not
    below [k]. *)
Fixpoint insert_by (k x : json) (sorted : list (json * json))
    : outcome (list (json * json)) :=
  match sorted with
  | [] => Return [(k, x)]
  | (k', y) :: rest =>
      obind (key_lt k' k) (λ below,
      if below : bool
      then obind (insert_by k x rest) (λ r, Return ((k', y) :: r))
      else Return ((k, x) :: (k', y) :: rest))
  end.

Fixpoint sort_keyed (l : list (json * json)) : outcome (list (json * json)) :=
  match l with
  | [] => Return []
  | (k, x) :: rest => obind (sort_keyed rest) (insert_by k x)
  end.

Fixpoint with_keys (key : json → outcome json) (l : list json)
    : outcome (list (json * json)) :=
  match l with
  | [] => Return []
  | x :: rest =>
      obind (key x) (λ k,
      obind (with_keys key rest) (λ r, Return ((k, x) :: r)))
  end.

(** A stable sort by key, for keys that are texts. *)
Definition demo_sort (key : json → outcome json) (l : list json)
    : outcome (list json) :=
  obind (with_keys key l) (λ keyed,
  obind (sort_keyed keyed) (λ sorted, Return (snd <$> sorted))).

(** Clock readings in whole seconds: their difference is exact and
    rounding to two decimals leaves it as it is. *)
Definition demo_round (x : Z) (ndigits : Z) : Z := x.

Definition demo_process : World → list (input Z) → option State :=
  process demo_sort Z Z.sub demo_round.

Definition free_model (id name : string) : json :=
  JObject [ ("id", JString id); ("name", JString name);
            ("pricing", JObject [ ("prompt", JString "0");
                                  ("completion", JString "0") ]) ].

Definition paid_model (id name : string) : json :=
  JObject [ ("id", JString id); ("name", JString name);
            ("pricing", JObject [ ("prompt", JString "0.000001");
                                  ("completion", JString "0.000002") ]) ].

Definition demo_catalog : Response :=
  {| status_code := 200;
     response_json :=
       Return (JObject
         [ ("data", JArray [ free_model "z/zeta:free" "Zeta";
                             paid_model "p/paid" "Paid";
                             free_model "a/alpha:free" "Alpha" ]) ]) |}.

(** The state after the first call for the default model, and the
    agent that call builds. *)
Definition demo_started : State :=
  (get_agent_for_model "mistralai/mistral-7b-instruct:free"
     (initial demo_world)).2.

Definition demo_llm : ChatOpenAI :=
  {| llm_model := "mistralai/mistral-7b-instruct:free";
     openai_api_key := "sk-or-v1-0000";
     openai_api_base := Some "https://openrouter.ai/api/v1";
     temperature := 0 |}.

Definition demo_db : SQLDatabase :=
  {| db_id := 0;
     db_uri := "postgresql://postgres@localhost:5432/pagila";
     dialect := "postgresql" |}.

Definition demo_agent : AgentExecutor :=
  {| agent_id := 1;
     agent_llm := demo_llm;
     agent_toolkit := {| toolkit_db := demo_db; toolkit_llm := demo_llm |};
     agent_verbose := true;
     agent_type := "zero-shot-react-description";
     handle_parsing_errors := true;
     agent_prefix := custom_prefix |}.

Definition greeting : string :=
  "Hello! I am your Pagila Database Assistant. I can help you find movies, actors, and rental information.".

(** The agent answers the greeting; the call takes three seconds. *)
Definition demo_invocation : Invocation Z :=
  {| time_before := 1700000000%Z;
     agent_run := λ _ _, Return greeting;
     time_after := 1700000003%Z |}.

(** A chat request with [model] null, one for another model, the
    catalog request. *)
Definition demo_inputs : list (input Z) :=
  [ PostChat Z {| query := "hi"; model := None |} demo_invocation;
    PostChat Z {| query := "hi"; model := Some "meta-llama/llama-3-8b-instruct:free" |}
      demo_invocation;
    GetModels Z (Return demo_catalog) ].

Definition demo_final : State :=
  default (initial demo_world) (demo_process demo_world demo_inputs).

End Demo.

Import Demo.

(** ** Worlds where something is missing *)

Module Cases.

(** No variable is set. *)
Definition bare_world : World :=
  {| environ := ∅;
     from_uri := from_uri demo_world;
     usable_table_names := usable_table_names demo_world;
     toolkit_tools := demo_tools;
     lib_raises := λ _, None |}.

(** The database refuses the connection. *)
Definition refused : exn := Exn ConnectionError "connection refused".

Definition down_world : World :=
  {| environ := environ demo_world;
     from_uri := λ _, Raise refused;
     usable_table_names := usable_table_names demo_world;
     toolkit_tools := demo_tools;
     lib_raises := λ _, None |}.

(** The database connects, listing its tables fails. *)
Definition denied : exn := Exn RuntimeError "permission denied for schema public".

Definition denied_world : World :=
  {| environ := environ demo_world;
     from_uri := from_uri demo_world;
     usable_table_names := Raise denied;
     toolkit_tools := demo_tools;
     lib_raises := λ _, None |}.

(** Both keys are set. *)
Definition full_world : World :=
  {| environ := <["OPENAI_API_KEY" := "sk-0000"]> (environ demo_world);
     from_uri := from_uri demo_world;
     usable_table_names := usable_table_names demo_world;
     toolkit_tools := demo_tools;
     lib_raises := λ _, None |}.

(** The agent the second chat request of the demo run builds. *)
Definition llama_llm : ChatOpenAI :=
  {| llm_model := "meta-llama/llama-3-8b-instruct:free";
     openai_api_key := "sk-or-v1-0000";
     openai_api_base := Some "https://openrouter.ai/api/v1";
     temperature := 0 |}.

Definition llama_agent : AgentExecutor :=
  {| agent_id := 2;
     agent_llm := llama_llm;
     agent_toolkit := {| toolkit_db := demo_db; toolkit_llm := llama_llm |};
     agent_verbose := true;
     agent_type := "zero-shot-react-description";
     handle_parsing_errors := true;
     agent_prefix := custom_prefix |}.

(** The agent fails with a rate limit, or with a timeout. *)
Definition rate_limited : exn := Exn RateLimitError "Error code: 429".
Definition timed_out : exn := Exn RuntimeError "Request timed out.".

Definition failing_invocation (e : exn) : Invocation Z :=
  {| time_before := 1700000000%Z;
     agent_run := λ _ _, Raise e;
     time_after := 1700000001%Z |}.

(** A catalog with an entry that is no dict. *)
Definition broken_catalog : Response :=
  {| status_code := 200;
     response_json :=
       Return (JObject
         [ ("data", JArray [ free_model "a/alpha:free" "Alpha"; JNull ]) ]) |}.

(** A catalog with a free entry whose name is null. *)
Definition nameless_catalog : Response :=
  {| status_code := 200;
     response_json :=
       Return (JObject
         [ ("data",
            JArray [ JObject [ ("id", JString "n/nameless:free");
                               ("name", JNull);
                               ("pricing",
                                JObject [ ("prompt", JString "0");
                                          ("completion", JString "0") ]) ];
                     free_model "a/alpha:free" "Alpha" ]) ]) |}.

(** The client of a model cannot be built. *)
Definition invalid : exn := Exn ValueError "1 validation error for ChatOpenAI".

Definition clientless_world : World :=
  {| environ := environ demo_world;
     from_uri := from_uri demo_world;
     usable_table_names := usable_table_names demo_world;
     toolkit_tools := demo_tools;
     lib_raises := λ c, match c with
                        | ChatOpenAI_init => Some invalid
                        | _ => None
                        end |}.

End Cases.

Import Cases.
(** * Properties *)

(** ** Texts: prefixes, occurrences, slices *)

Module TextFacts.

Local Arguments String.append !_ _ / : simpl nomatch.

Lemma text_app_nil_r (s : string) : s +:+ "" = s.
Proof. induction s; simpl; congruence. Qed.

Lemma text_app_assoc (a b c : string) : (a +:+ b) +:+ c = a +:+ b +:+ c.
Proof. induction a; simpl; congruence. Qed.

Lemma text_length_app (a b : string) :
  String.length (a +:+ b) = String.length a + String.length b.
Proof. induction a; simpl; congruence. Qed.

Lemma prefix_nil (s : string) : String.prefix "" s = true.
Proof. by destruct s. Qed.

Lemma prefix_app (p s : string) : String.prefix p (p +:+ s) = true.
Proof.
  induction p as [|c p IH]; simpl; [apply prefix_nil|].
  destruct (ascii_dec c c); [done|congruence].
Qed.

Lemma prefix_true (p s : string) :
  String.prefix p s = true → ∃ t, s = p +:+ t.
Proof.
  revert s. induction p as [|c p IH]; intros s H; [by exists s|].
  destruct s as [|d s]; simpl in H; [done|].
  destruct (ascii_dec c d) as [->|]; [|done].
  destruct (IH _ H) as [t ->]. by exists t.
Qed.

Lemma prefix_app_l (a b s : string) :
  String.prefix (a +:+ b) s = true → String.prefix a s = true.
Proof.
  intros [t ->]%prefix_true. rewrite text_app_assoc. apply prefix_app.
Qed.

Lemma prefix_length (p s : string) :
  String.prefix p s = true → String.length p ≤ String.length s.
Proof. intros [t ->]%prefix_true. rewrite text_length_app. lia. Qed.

Lemma slice_from_nil (i : nat) : slice_from i "" = "".
Proof. by destruct i. Qed.

Lemma slice_to_nil (j : nat) : slice_to j "" = "".
Proof. by destruct j. Qed.

Lemma slice_from_app (a b : string) :
  slice_from (String.length a) (a +:+ b) = b.
Proof. induction a; simpl; auto. Qed.

Lemma slice_from_app_plus (a b : string) (n : nat) :
  slice_from (String.length a + n) (a +:+ b) = slice_from n b.
Proof. induction a; simpl; auto. Qed.

Lemma slice_to_app (a b : string) :
  slice_to (String.length a) (a +:+ b) = a.
Proof. induction a; simpl; congruence. Qed.

Lemma slice_to_from (j : nat) (s : string) :
  slice_to j s +:+ slice_from j s = s.
Proof.
  revert s. induction j as [|j IH]; intros [|c s]; simpl; try done.
  by rewrite IH.
Qed.

Lemma slice_to_length (j : nat) (s : string) :
  j ≤ String.length s → String.length (slice_to j s) = j.
Proof.
  revert s. induction j as [|j IH]; intros [|c s]; simpl; try lia.
  intros. rewrite IH; lia.
Qed.

Lemma slice_from_from (i j : nat) (s : string) :
  slice_from i (slice_from j s) = slice_from (j + i) s.
Proof.
  revert s. induction j as [|j IH]; intros s; simpl; [done|].
  destruct s; [by rewrite slice_from_nil|]. apply IH.
Qed.

Lemma slice_from_length (i : nat) (s : string) :
  String.length (slice_from i s) = String.length s - i.
Proof.
  revert s. induction i as [|i IH]; intros [|c s]; simpl; done.
Qed.

(** *** [find] *)

Lemma find_nil (sub : string) :
  find "" sub = if String.prefix sub "" then Some 0 else None.
Proof. done. Qed.

Lemma find_cons (c : ascii) (s sub : string) :
  find (String c s) sub
  = if String.prefix sub (String c s) then Some 0 else S <$> find s sub.
Proof. done. Qed.

Lemma find_Some_first (s sub : string) (j : nat) :
  find s sub = Some j → first_at sub s j.
Proof.
  revert j. induction s as [|c s IH]; intros j.
  - rewrite find_nil. destruct (String.prefix sub "") eqn:E; [|done].
    intros [= <-]. split; [done|lia].
  - rewrite find_cons. destruct (String.prefix sub (String c s)) eqn:E.
    + intros [= <-]. split; [done|lia].
    + destruct (find s sub) as [k|] eqn:F; [|done].
      intros [= <-]. destruct (IH k eq_refl) as [Hk Hlt].
      split; [done|]. intros [|i] Hi; unfold occurs_at.
      * change (slice_from 0 (String c s)) with (String c s). congruence.
      * apply Hlt. lia.
Qed.

Lemma find_None_absent (s sub : string) :
  find s sub = None → absent sub s.
Proof.
  induction s as [|c s IH].
  - rewrite find_nil. destruct (String.prefix sub "") eqn:E; [done|].
    intros _ i. unfold occurs_at. rewrite slice_from_nil. congruence.
  - rewrite find_cons.
    destruct (String.prefix sub (String c s)) eqn:E; [done|].
    destruct (find s sub) eqn:F; [done|].
    intros _ [|i]; unfold occurs_at.
    + change (slice_from 0 (String c s)) with (String c s). congruence.
    + by apply IH.
Qed.

Lemma occurs_find (s sub : string) (i : nat) :
  occurs_at sub s i → ∃ j, find s sub = Some j ∧ j ≤ i.
Proof.
  intros H. destruct (find s sub) as [j|] eqn:F.
  - exists j. split; [done|]. apply find_Some_first in F as [_ Hlt].
    destruct (decide (j ≤ i)); [done|]. exfalso. apply (Hlt i); [lia|done].
  - exfalso. by apply (find_None_absent _ _ F i).
Qed.

Lemma first_at_unique (s sub : string) (i j : nat) :
  first_at sub s i → first_at sub s j → i = j.
Proof.
  intros [Hi Li] [Hj Lj].
  destruct (lt_eq_lt_dec i j) as [[?|?]|?]; [|done|].
  - by destruct (Lj i).
  - by destruct (Li j).
Qed.

Lemma first_at_find (s sub : string) (j : nat) :
  first_at sub s j → find s sub = Some j.
Proof.
  intros H. destruct (occurs_find s sub j) as (k & F & _); [apply H|].
  rewrite F. f_equal. eapply first_at_unique; [|done].
  by apply find_Some_first.
Qed.

Lemma absent_find (s sub : string) : absent sub s → find s sub = None.
Proof.
  intros H. destruct (find s sub) as [j|] eqn:F; [|done].
  apply find_Some_first in F as [F _]. by destruct (H j).
Qed.

Lemma occurs_at_bound (s sub : string) (i : nat) :
  occurs_at sub s i → i + String.length sub ≤ String.length s ∨ sub = "".
Proof.
  intros H%prefix_length. rewrite slice_from_length in H.
  destruct sub; [by right|]. simpl in *. left. lia.
Qed.

(** Where [sub] occurs, the text is what precedes, [sub], what follows. *)
Lemma occurs_at_split (s sub : string) (j : nat) :
  occurs_at sub s j →
  s = slice_to j s +:+ sub +:+ slice_from (j + String.length sub) s.
Proof.
  intros H. destruct (prefix_true _ _ H) as [t Ht].
  rewrite <-(slice_to_from j s) at 1. f_equal.
  rewrite Ht. f_equal.
  rewrite <-slice_from_from, Ht. by rewrite slice_from_app.
Qed.

End TextFacts.

(** ** [split], [endswith] and the slice that drops the last character *)

Module SplitFacts.

Import TextFacts.
Local Arguments String.append !_ _ / : simpl nomatch.

Lemma find_nil_nonempty (sep : string) : sep ≠ "" → find "" sep = None.
Proof. by destruct sep. Qed.

Lemma length_zero (s : string) : String.length s = 0 → s = "".
Proof. by destruct s. Qed.

(** Any bound that is at least the length of the text gives the same
    pieces: the bound [split] passes to [splitn] never cuts it short. *)
Lemma splitn_enough (sep : string) (n m : nat) (s : string) :
  sep ≠ "" → String.length s ≤ n → String.length s ≤ m →
  splitn n s sep = splitn m s sep.
Proof.
  intros Hsep. revert m s.
  induction n as [|n IH]; intros m s Hn Hm.
  - assert (s = "") as -> by (apply length_zero; lia).
    destruct m; cbn [splitn]; [done|]. by rewrite find_nil_nonempty.
  - destruct m as [|m].
    + assert (s = "") as -> by (apply length_zero; lia).
      cbn [splitn]. by rewrite find_nil_nonempty.
    + cbn [splitn]. destruct (find s sep) as [j|]; [|done]. f_equal.
      assert (0 < String.length sep) by (destruct sep; simpl; [done|lia]).
      apply IH; rewrite slice_from_length; lia.
Qed.

Lemma splitn_absent (n : nat) (s sep : string) :
  find s sep = None → splitn n s sep = [s].
Proof. intros H. destruct n; cbn [splitn]; [done|]. by rewrite H. Qed.

Lemma splitn_two (n : nat) (s sep : string) (j : nat) :
  find s sep = Some j →
  ∃ more, splitn (S (S n)) s sep
          = slice_to j s
            :: up_to_next sep (slice_from (j + String.length sep) s)
            :: more.
Proof.
  intros H. cbn [splitn]. rewrite H. unfold up_to_next.
  destruct (find (slice_from _ s) sep); eauto.
Qed.

(** *** Prefixes of a concatenation *)

Lemma prefix_app_cases (p q t : string) :
  String.prefix p (q +:+ t) = true →
  String.length p ≤ String.length q ∧ String.prefix p q = true
  ∨ String.length q < String.length p
    ∧ String.prefix (slice_from (String.length q) p) t = true.
Proof.
  revert p. induction q as [|c q IH]; intros p H.
  - destruct p as [|d p]; [left; by split|]. right. simpl. split; [lia|done].
  - destruct p as [|d p]; [left; simpl; split; [lia|done]|].
    simpl in H. destruct (ascii_dec d c) as [->|]; [|done].
    destruct (IH _ H) as [[? ?]|[? ?]].
    + left. simpl. split; [lia|]. by destruct (ascii_dec c c).
    + right. simpl. split; [lia|done].
Qed.

Lemma slice_from_app_le (i : nat) (a b : string) :
  i ≤ String.length a → slice_from i (a +:+ b) = slice_from i a +:+ b.
Proof.
  revert a. induction i as [|i IH]; intros a H; [done|].
  destruct a as [|c a]; simpl in *; [lia|]. apply IH. lia.
Qed.

Lemma prefix_short (p a b : string) :
  String.prefix p (a +:+ b) = true → String.length p ≤ String.length a →
  String.prefix p a = true.
Proof.
  intros H Hlen. destruct (prefix_app_cases _ _ _ H) as [[_ ?]|[? _]]; [done|lia].
Qed.

Lemma borderless_spec (sep : string) (k : nat) :
  borderless sep = true → 1 ≤ k → k < String.length sep →
  String.prefix (slice_from k sep) sep = false.
Proof.
  unfold borderless. rewrite forallb_forall. intros H ??.
  apply negb_true_iff, H, in_seq. lia.
Qed.

(** Behind a text without the separator, the first occurrence of a
    borderless separator is the one put there. *)
Lemma first_at_app (sep pre rest : string) :
  borderless sep = true → find pre sep = None →
  first_at sep (pre +:+ sep +:+ rest) (String.length pre).
Proof.
  intros Hb Hpre. apply find_None_absent in Hpre. split.
  - unfold occurs_at. rewrite slice_from_app. apply prefix_app.
  - intros i Hi Hocc. unfold occurs_at in Hocc.
    rewrite slice_from_app_le in Hocc by lia.
    destruct (prefix_app_cases _ _ _ Hocc) as [[_ Hp]|[Hlen Hp]].
    { by destruct (Hpre i). }
    rewrite slice_from_length in Hlen, Hp.
    apply prefix_short in Hp; [|rewrite slice_from_length; lia].
    rewrite borderless_spec in Hp; [done|done|lia|lia].
Qed.

Lemma find_app (sep pre rest : string) :
  borderless sep = true → find pre sep = None →
  find (pre +:+ sep +:+ rest) sep = Some (String.length pre).
Proof. intros. by apply first_at_find, first_at_app. Qed.

(** *** A trailing character *)

Lemma endswith_true (s suffix : string) :
  endswith s suffix = true →
  s = slice_to (String.length s - String.length suffix) s +:+ suffix.
Proof.
  unfold endswith. intros [_ H%String.eqb_eq]%andb_true_iff.
  pose proof (slice_to_from (String.length s - String.length suffix) s) as E.
  rewrite H in E. by symmetry.
Qed.

Lemma endswith_app (a suffix : string) : endswith (a +:+ suffix) suffix = true.
Proof.
  unfold endswith. rewrite text_length_app. apply andb_true_iff. split.
  - apply Nat.leb_le. lia.
  - replace (String.length a + String.length suffix - String.length suffix)
      with (String.length a) by lia.
    rewrite slice_from_app. apply String.eqb_refl.
Qed.

Lemma drop_last_app (a : string) (c : ascii) :
  drop_last (a +:+ String c "") = a.
Proof.
  unfold drop_last. rewrite text_length_app. simpl.
  replace (String.length a + 1 - 1) with (String.length a) by lia.
  apply slice_to_app.
Qed.

Lemma endswith_drop_last (s : string) :
  endswith s "`" = true → s = drop_last s +:+ "`".
Proof. intros H. by apply endswith_true in H. Qed.

End SplitFacts.

(** ** The fallback parser *)

Module SanitizerFacts.

Import TextFacts SplitFacts.

Lemma marker_borderless : borderless marker = true.
Proof. vm_compute. reflexivity. Qed.

Lemma marker_nonempty : marker ≠ "".
Proof. discriminate. Qed.

Lemma marker_head_app : marker = marker_head +:+ " `".
Proof. reflexivity. Qed.

Lemma contains_true (sub s : string) :
  contains sub s = true ↔ ∃ j, find s sub = Some j.
Proof.
  unfold contains. destruct (find s sub); split; eauto; try done.
  by intros [? ?].
Qed.

Lemma contains_false (sub s : string) :
  contains sub s = false ↔ find s sub = None.
Proof. unfold contains. by destruct (find s sub). Qed.

(** Where the marker occurs, the text tested with [in] occurs too. *)
Lemma contains_marker_head (s : string) :
  contains marker s = true → contains marker_head s = true.
Proof.
  rewrite !contains_true. intros [j [Hj _]%find_Some_first].
  unfold occurs_at in Hj. rewrite marker_head_app in Hj.
  apply prefix_app_l in Hj.
  destruct (occurs_find s marker_head j Hj) as (k & ? & _). eauto.
Qed.

Lemma split_marker (s : string) :
  split s marker = Return (splitn (String.length s) s marker).
Proof. reflexivity. Qed.

Lemma fallback_try_absent (s : string) :
  find s marker = None → fallback_try s = Return None.
Proof.
  intros H. unfold fallback_try.
  destruct (contains marker_head s); [|done].
  rewrite split_marker, splitn_absent by done. reflexivity.
Qed.

Lemma fallback_try_present (s : string) (j : nat) :
  find s marker = Some j →
  let portion := up_to_next marker (slice_from (j + String.length marker) s) in
  fallback_try s
  = Return (Some (repeat_prefix
                  +:+ (if endswith portion "`" then drop_last portion
                       else portion))).
Proof.
  intros H portion. unfold fallback_try.
  rewrite contains_marker_head by (apply contains_true; eauto).
  rewrite split_marker.
  rewrite (splitn_enough marker _ (S (S (String.length s))))
    by (auto using marker_nonempty with lia).
  destruct (splitn_two (String.length s) s marker j H) as [more ->].
  reflexivity.
Qed.

(** The [try] block raises nothing. *)
Lemma fallback_try_returns (s : string) : ∃ r, fallback_try s = Return r.
Proof.
  destruct (find s marker) as [j|] eqn:F.
  - rewrite (fallback_try_present s j F). eauto.
  - rewrite (fallback_try_absent s F). eauto.
Qed.

Lemma fallback_handler_present (e : exn) (j : nat) :
  find (str e) marker = Some j →
  let portion :=
    up_to_next marker (slice_from (j + String.length marker) (str e)) in
  fallback_handler e
  = Return (repeat_prefix
            +:+ (if endswith portion "`" then drop_last portion else portion)).
Proof.
  intros H portion. unfold fallback_handler.
  by rewrite (fallback_try_present _ j H).
Qed.

Lemma fallback_handler_absent (e : exn) :
  find (str e) marker = None →
  fallback_handler e = Return (safe_message (str e)).
Proof.
  intros H. unfold fallback_handler. by rewrite (fallback_try_absent _ H).
Qed.

(** The piece [up_to_next] gives, and what is left behind it. *)
Lemma up_to_next_spec (rest : string) :
  ∃ tail,
    rest = up_to_next marker rest +:+ tail
    ∧ (tail = "" ∧ absent marker (up_to_next marker rest)
       ∨ first_at marker (up_to_next marker rest +:+ tail)
           (String.length (up_to_next marker rest))).
Proof.
  unfold up_to_next. destruct (find rest marker) as [k|] eqn:F.
  - exists (slice_from k rest). rewrite slice_to_from. split; [done|].
    right. apply find_Some_first in F.
    rewrite slice_to_length; [done|].
    destruct F as [F _]. apply occurs_at_bound in F as [?|?]; [lia|].
    by destruct marker_nonempty.
  - exists "". rewrite text_app_nil_r. split; [done|]. left. split; [done|].
    by apply find_None_absent.
Qed.

(** From a text without the marker up to the next marker. *)
Lemma up_to_next_app (mid tail : string) :
  find mid marker = None →
  up_to_next marker (mid +:+ marker +:+ tail) = mid.
Proof.
  intros H. unfold up_to_next.
  rewrite find_app by auto using marker_borderless.
  apply slice_to_app.
Qed.

Lemma up_to_next_absent (rest : string) :
  find rest marker = None → up_to_next marker rest = rest.
Proof. intros H. unfold up_to_next. by rewrite H. Qed.

(** The answer behind the first marker of [pre ++ marker ++ rest]. *)
Lemma fallback_handler_app (cls : exn_class) (pre rest : string) :
  find pre marker = None →
  let portion := up_to_next marker rest in
  fallback_handler (Exn cls (pre +:+ marker +:+ rest))
  = Return (repeat_prefix
            +:+ (if endswith portion "`" then drop_last portion else portion)).
Proof.
  intros H portion.
  rewrite (fallback_handler_present _ (String.length pre)); cbn [str exn_text].
  - rewrite <-(text_app_assoc pre marker rest), <-text_length_app.
    by rewrite slice_from_app.
  - by apply find_app; auto using marker_borderless.
Qed.

(** C1: when the error text contains the marker, the text is cut at the
    first marker, the piece behind it (up to the next marker, if there is
    one) loses one closing backtick if it ends with one, and the answer is
    the instruction to repeat followed by that piece; the error text
    [Could not parse LLM output: `The answer is 42`] gives the instruction
    followed by [The answer is 42]. *)
Theorem fallback_handler_marker :
  (∀ e : exn,
     contains marker (str e) = true →
     ∃ pre portion tail answer : string,
       str e = pre +:+ marker +:+ portion +:+ tail
       ∧ first_at marker (str e) (String.length pre)
       ∧ (tail = "" ∧ absent marker portion
          ∨ first_at marker (portion +:+ tail) (String.length portion))
       ∧ (portion = answer +:+ "`"
          ∨ endswith portion "`" = false ∧ answer = portion)
       ∧ fallback_handler e = Return (repeat_prefix +:+ answer))
  ∧ (∀ cls : exn_class,
       fallback_handler
         (Exn cls "Could not parse LLM output: `The answer is 42`")
       = Return "Output parsed but format incorrect. Please repeat this EXACT answer with the prefix 'Final Answer:': The answer is 42").
Proof.
  split; [|intros cls; vm_compute; reflexivity].
  intros e [j F]%contains_true.
  pose proof (find_Some_first _ _ _ F) as Hfirst.
  pose proof (occurs_at_split _ _ _ (proj1 Hfirst)) as Hsplit.
  set (rest := slice_from (j + String.length marker) (str e)) in *.
  destruct (up_to_next_spec rest) as (tail & Hrest & Htail).
  assert (String.length (slice_to j (str e)) = j) as Hlen.
  { apply slice_to_length.
    destruct (occurs_at_bound _ _ _ (proj1 Hfirst)) as [?|?]; [lia|].
    by destruct marker_nonempty. }
  exists (slice_to j (str e)), (up_to_next marker rest), tail.
  exists (if endswith (up_to_next marker rest) "`"
          then drop_last (up_to_next marker rest)
          else up_to_next marker rest).
  rewrite Hlen. split_and!.
  - by rewrite <-Hrest.
  - done.
  - done.
  - destruct (endswith (up_to_next marker rest) "`") eqn:E.
    + left. by apply endswith_drop_last.
    + by right.
  - by apply fallback_handler_present.
Qed.

Lemma fallback_handler_marker_witness :
  contains marker (str (Exn ValueError "Could not parse LLM output: `The answer is 42`")) = true
  ∧ ∃ pre portion tail answer : string,
      str (Exn ValueError "Could not parse LLM output: `The answer is 42`")
      = pre +:+ marker +:+ portion +:+ tail
      ∧ first_at marker
          (str (Exn ValueError "Could not parse LLM output: `The answer is 42`"))
          (String.length pre)
      ∧ (tail = "" ∧ absent marker portion
         ∨ first_at marker (portion +:+ tail) (String.length portion))
      ∧ (portion = answer +:+ "`"
         ∨ endswith portion "`" = false ∧ answer = portion)
      ∧ fallback_handler (Exn ValueError "Could not parse LLM output: `The answer is 42`")
        = Return (repeat_prefix +:+ answer).
Proof.
  split; [vm_compute; reflexivity|].
  apply (proj1 fallback_handler_marker). vm_compute. reflexivity.
Defined.

(** C2, as stated, fails: with two markers the answer is not what follows
    the first marker, with or without its closing backtick. *)
Lemma remainder_after_first_marker_fails :
  let s := "Could not parse LLM output: `first` Could not parse LLM output: `second`" in
  let remainder := slice_from (0 + String.length marker) s in
  find s marker = Some 0
  ∧ contains marker remainder = true
  ∧ fallback_handler (Exn ValueError s) = Return (repeat_prefix +:+ "first` ")
  ∧ fallback_handler (Exn ValueError s) ≠ Return (repeat_prefix +:+ remainder)
  ∧ fallback_handler (Exn ValueError s)
    ≠ Return (repeat_prefix +:+ drop_last remainder).
Proof. vm_compute. split_and!; (reflexivity || discriminate). Qed.

(** C2, amended: the parser returns a text for every error and raises
    nothing: for the empty text the safe message; for a marker with no
    closing backtick behind it all that follows the marker; for a text
    with more than one marker the text between the first and the second
    marker, less one closing backtick when it ends with one. *)
Theorem fallback_handler_total :
  (∀ e : exn, ∃ r : string, fallback_handler e = Return r)
  ∧ (∀ cls : exn_class,
       fallback_handler (Exn cls "") = Return (safe_message ""))
  ∧ (∀ (cls : exn_class) (pre rest : string),
       contains marker pre = false →
       contains marker rest = false →
       endswith rest "`" = false →
       fallback_handler (Exn cls (pre +:+ marker +:+ rest))
       = Return (repeat_prefix +:+ rest))
  ∧ (∀ (cls : exn_class) (pre mid tail : string),
       contains marker pre = false →
       contains marker mid = false →
       fallback_handler (Exn cls (pre +:+ marker +:+ mid +:+ marker +:+ tail))
       = Return (repeat_prefix
                 +:+ (if endswith mid "`" then drop_last mid else mid))).
Proof.
  split_and!.
  - intros e. unfold fallback_handler.
    destruct (fallback_try_returns (str e)) as [[r|] ->]; eauto.
  - intros cls. reflexivity.
  - intros cls pre rest Hpre%contains_false Hrest%contains_false Hend.
    rewrite fallback_handler_app by done.
    rewrite up_to_next_absent by done. by rewrite Hend.
  - intros cls pre mid tail Hpre%contains_false Hmid%contains_false.
    rewrite fallback_handler_app by done.
    by rewrite up_to_next_app.
Qed.

Lemma fallback_handler_total_witness :
  contains marker "" = false
  ∧ contains marker "first` " = false
  ∧ fallback_handler
      (Exn ValueError ("" +:+ marker +:+ "first` " +:+ marker +:+ "second`"))
    = Return (repeat_prefix
              +:+ (if endswith "first` " "`" then drop_last "first` "
                   else "first` ")).
Proof.
  split; [vm_compute; reflexivity|]. split; [vm_compute; reflexivity|].
  apply (proj2 (proj2 (proj2 fallback_handler_total))).
  - vm_compute. reflexivity.
  - vm_compute. reflexivity.
Defined.

(** C3, as stated, fails: an error text can contain the marker, an answer
    and a closing backtick while the text returned does not contain the
    answer, or has it with the backtick still behind it. *)
Lemma wrapped_answer_fails :
  (let s := "Could not parse LLM output: `x` Could not parse LLM output: `42`" in
   contains (marker +:+ "42" +:+ "`") s = true
   ∧ ∃ r, fallback_handler (Exn ValueError s) = Return r
          ∧ contains "42" r = false)
  ∧ (let s := "Could not parse LLM output: `42` and more" in
     contains (marker +:+ "42" +:+ "`") s = true
     ∧ fallback_handler (Exn ValueError s)
       = Return (repeat_prefix +:+ "42` and more")).
Proof.
  split.
  - split; [vm_compute; reflexivity|].
    eexists. split; vm_compute; reflexivity.
  - split; vm_compute; reflexivity.
Qed.

(** C3, amended: when the error text is some text without the marker, the
    marker, an answer and one closing backtick, and the marker does not
    occur in the answer with its backtick, the parser returns the
    instruction to repeat followed by exactly the answer, the backtick
    removed. *)
Theorem fallback_handler_wrapped (cls : exn_class) (pre answer : string) :
  contains marker pre = false →
  contains marker (answer +:+ "`") = false →
  fallback_handler (Exn cls (pre +:+ marker +:+ answer +:+ "`"))
  = Return (repeat_prefix +:+ answer).
Proof.
  intros Hpre%contains_false Hans%contains_false.
  rewrite fallback_handler_app by done.
  rewrite up_to_next_absent by done.
  by rewrite endswith_app, drop_last_app.
Qed.

Lemma fallback_handler_wrapped_witness :
  contains marker "LLM said: " = false
  ∧ contains marker ("The answer is 42" +:+ "`") = false
  ∧ fallback_handler
      (Exn ValueError ("LLM said: " +:+ marker +:+ "The answer is 42" +:+ "`"))
    = Return (repeat_prefix +:+ "The answer is 42").
Proof.
  split; [vm_compute; reflexivity|]. split; [vm_compute; reflexivity|].
  apply fallback_handler_wrapped; vm_compute; reflexivity.
Defined.

(** C4: when the error text does not contain the marker, the parser
    returns the safe message, which carries the error text unchanged and
    asks for the ['Final Answer:'] format; nothing is raised. *)
Theorem fallback_handler_no_marker (e : exn) :
  contains marker (str e) = false →
  fallback_handler e
  = Return ("Error: " +:+ str e
            +:+ ". Please check your output format. If you have the answer, output it as 'Final Answer: [your answer]'.").
Proof. intros H%contains_false. by apply fallback_handler_absent. Qed.

Lemma fallback_handler_no_marker_witness :
  contains marker (str (Exn RuntimeError "connection reset by peer")) = false
  ∧ fallback_handler (Exn RuntimeError "connection reset by peer")
    = Return ("Error: " +:+ str (Exn RuntimeError "connection reset by peer")
              +:+ ". Please check your output format. If you have the answer, output it as 'Final Answer: [your answer]'.").
Proof.
  split; [vm_compute; reflexivity|].
  apply fallback_handler_no_marker. vm_compute. reflexivity.
Defined.

End SanitizerFacts.

(** ** The process: what each call does to the state *)

Module ProcessFacts.

Import TextFacts SplitFacts.

(** *** Inversion of the monad's operations *)

Lemma bind_inv {A B} (c : M A) (k : A → M B) (st st' : State)
    (o : outcome B) :
  bind c k st = (o, st') →
  (∃ a st1, c st = (Return a, st1) ∧ k a st1 = (o, st'))
  ∨ (∃ e, c st = (Raise e, st') ∧ o = Raise e).
Proof.
  unfold bind. destruct (c st) as [[a|e] st1]; intros H.
  - left. eauto.
  - right. exists e. by inversion H.
Qed.

Lemma try_except_inv {A} (c : M A) (h : exn → M A) (st st' : State)
    (o : outcome A) :
  try_except c h st = (o, st') →
  (∃ a, c st = (Return a, st') ∧ o = Return a)
  ∨ (∃ e st1, c st = (Raise e, st1) ∧ is_Exception e = true
              ∧ h e st1 = (o, st'))
  ∨ (∃ e, c st = (Raise e, st') ∧ is_Exception e = false ∧ o = Raise e).
Proof.
  unfold try_except. destruct (c st) as [[a|e] st1]; intros H.
  - left. exists a. by inversion H.
  - right. destruct (is_Exception e) eqn:E.
    + left. eauto.
    + right. exists e. by inversion H.
Qed.

(** *** Events *)

Lemma built_app (l1 l2 : list event) : built (l1 ++ l2) = built l1 ++ built l2.
Proof. apply omap_app. Qed.

Lemma connected_app (l1 l2 : list event) :
  connected (l1 ++ l2) = connected l1 ++ connected l2.
Proof. apply omap_app. Qed.

Lemma constructed_snoc (m m' : string) (a : AgentExecutor)
    (l l' : list event) :
  built l' = built l ++ [(m', a)] →
  constructed m l' = constructed m l ++ (if String.eqb m' m then [a] else []).
Proof.
  intros H. unfold constructed. rewrite H, omap_app. simpl.
  by destruct (String.eqb m' m).
Qed.

Lemma constructed_same (m : string) (l l' : list event) :
  built l' = built l → constructed m l' = constructed m l.
Proof. intros H. unfold constructed. by rewrite H. Qed.

(** *** Steps of the database handle *)

Lemma db_step_refl (st : State) : db_step st st.
Proof. by left. Qed.

Lemma db_step_trans (st1 st2 st3 : State) :
  db_step st1 st2 → db_step st2 st3 → db_step st1 st3.
Proof.
  intros [[H1 H2]|(H1 & d & H2 & H3)] [[G1 G2]|(G1 & d' & G2 & G3)].
  - left. split; congruence.
  - right. split; [congruence|]. exists d'. split; congruence.
  - right. split; [done|]. exists d. split; congruence.
  - congruence.
Qed.

Lemma frame_refl (st : State) : frame st st.
Proof. by repeat split. Qed.

Lemma frame_trans (st1 st2 st3 : State) :
  frame st1 st2 → frame st2 st3 → frame st1 st3.
Proof. intros (?&?&?) (?&?&?). repeat split; congruence. Qed.

(** A state that differs by printed lines only. *)
Lemma frame_print (st : State) (ev : event) :
  built [ev] = [] →
  frame st {| world := world st; _db_instance := _db_instance st;
              agent_cache := agent_cache st; next_id := next_id st;
              events := events st ++ [ev] |}.
Proof.
  intros H. repeat split; simpl. by rewrite built_app, H, app_nil_r.
Qed.

Lemma db_step_print (st : State) (ev : event) :
  connected [ev] = [] →
  db_step st {| world := world st; _db_instance := _db_instance st;
                agent_cache := agent_cache st; next_id := next_id st;
                events := events st ++ [ev] |}.
Proof.
  intros H. left. split; simpl; [done|].
  by rewrite connected_app, H, app_nil_r.
Qed.

Create HintDb proc discriminated.
#[export] Hint Resolve frame_refl db_step_refl frame_print db_step_print : proc.
#[export] Hint Extern 1 (built [_] = []) => reflexivity : proc.
#[export] Hint Extern 1 (connected [_] = []) => reflexivity : proc.

(** *** The providers *)

Lemma new_ChatOpenAI_spec (m k : string) (b : option string) (t : Z)
    (st st' : State) (o : outcome ChatOpenAI) :
  new_ChatOpenAI m k b t st = (o, st') → st' = st ∧ for_model m o.
Proof.
  unfold new_ChatOpenAI, bind, framework, ret.
  destruct (lib_raises (world st) ChatOpenAI_init); by intros [= <- <-].
Qed.

Lemma get_llm_spec (m : string) (st st' : State) (o : outcome ChatOpenAI) :
  get_llm m st = (o, st') → frame st st' ∧ db_step st st' ∧ for_model m o.
Proof.
  unfold get_llm, bind at 1, getenv.
  destruct (truthy _).
  - intros [-> ?]%new_ChatOpenAI_spec. auto with proc.
  - intros [= <- <-]. split_and!; auto with proc. done.
Qed.

Lemma get_openai_llm_spec (m : string) (st st' : State)
    (o : outcome ChatOpenAI) :
  get_openai_llm m st = (o, st') →
  frame st st' ∧ db_step st st' ∧ for_model m o.
Proof.
  unfold get_openai_llm, bind at 1, getenv.
  destruct (truthy _).
  - intros [-> ?]%new_ChatOpenAI_spec. auto with proc.
  - intros [= <- <-]. split_and!; auto with proc. done.
Qed.

(** *** The database handle *)

Lemma sys_exit_1_fatal : is_Exception sys_exit_1 = false.
Proof. reflexivity. Qed.

(** [get_db] leaves the cache and the agents alone; when it returns, the
    handle it returns is the stored one, stored before or opened now;
    what it raises is never an [Exception]. *)
Lemma get_db_spec (st st' : State) (o : outcome SQLDatabase) :
  get_db st = (o, st') →
  frame st st'
  ∧ match o with
    | Return db => db_step st st' ∧ _db_instance st' = Some db
    | Raise e => is_Exception e = false
    end.
Proof.
  cbv [get_db bind read_db_instance getenv try_except
       SQLDatabase_from_uri get_usable_table_names print emit fresh_id
       write_db_instance ret raise frame db_step].
  intros H. repeat case_match; simplify_eq/=;
    rewrite ?built_app, ?connected_app, ?app_nil_r; simpl;
    rewrite ?app_nil_r; eauto 10.
Qed.

(** *** Building an agent *)

Lemma splitn_nonempty (n : nat) (s sep : string) :
  ∃ x l, splitn n s sep = x :: l.
Proof. destruct n; cbn [splitn]; [eauto|]. destruct (find s sep); eauto. Qed.

Lemma first_sentence_returns (description : string) :
  ∃ sentence, first_sentence description = Return sentence.
Proof.
  unfold first_sentence.
  change (split (strip description) ".")
    with (Return (splitn (String.length (strip description))
                    (strip description) ".")).
  destruct (splitn_nonempty (String.length (strip description))
              (strip description) ".") as (x & l & ->).
  by exists x.
Qed.

(** A loop whose body only prints changes nothing else and ends. *)
Lemma for_each_prints {A} (l : list A) (body : A → M unit) :
  (∀ x st, ∃ line, body x st = print line st) →
  ∀ st, ∃ st', for_each l body st = (Return tt, st')
               ∧ frame st st' ∧ db_step st st'.
Proof.
  intros Hbody. induction l as [|x l IH]; intros st.
  - exists st. auto with proc.
  - destruct (Hbody x st) as [line Hx]. cbn [for_each]. unfold bind.
    rewrite Hx. cbv [print emit].
    match goal with |- context [for_each l body ?s] =>
      destruct (IH s) as (st' & -> & Hf & Hd) end.
    exists st'. split; [done|]. split.
    + eapply frame_trans; [|done]. auto with proc.
    + eapply db_step_trans; [|done]. auto with proc.
Qed.

Lemma provider_spec (m : string) (st st' : State) (o : outcome ChatOpenAI) :
  (if startswith m "gpt-"
   then bind (print ("Using OpenAI provider for model: " +:+ m))
          (λ _, get_openai_llm m)
   else bind (print ("Using OpenRouter provider for model: " +:+ m))
          (λ _, get_llm m)) st = (o, st') →
  frame st st' ∧ db_step st st' ∧ for_model m o.
Proof.
  destruct (startswith m "gpt-"); cbv [bind print emit].
  - intros (Hf & Hd & ?)%get_openai_llm_spec. split_and!; [| |done].
    + eapply frame_trans; [|exact Hf]. auto with proc.
    + eapply db_step_trans; [|exact Hd]. auto with proc.
  - intros (Hf & Hd & ?)%get_llm_spec. split_and!; [| |done].
    + eapply frame_trans; [|exact Hf]. auto with proc.
    + eapply db_step_trans; [|exact Hd]. auto with proc.
Qed.

Lemma new_SQLDatabaseToolkit_spec (db : SQLDatabase) (llm : ChatOpenAI)
    (st st' : State) (o : outcome SQLDatabaseToolkit) :
  new_SQLDatabaseToolkit db llm st = (o, st') →
  st' = st
  ∧ match o with Return toolkit => toolkit_db toolkit = db | Raise _ => True end.
Proof.
  cbv [new_SQLDatabaseToolkit bind framework ret].
  destruct (lib_raises _ _); by intros [= <- <-].
Qed.

Lemma get_tools_spec (toolkit : SQLDatabaseToolkit) (st st' : State)
    (o : outcome (list Tool)) :
  get_tools toolkit st = (o, st') → st' = st.
Proof.
  cbv [get_tools bind framework].
  destruct (lib_raises _ _); by intros [= <- <-].
Qed.

Lemma print_tools_spec (tools : list Tool) (st : State) :
  ∃ st',
    for_each tools
      (λ tool,
         bind (lift (first_sentence (tool_description tool)))
           (λ sentence,
              print ("- " +:+ tool_name tool +:+ ": " +:+ sentence))) st
    = (Return tt, st')
    ∧ frame st st' ∧ db_step st st'.
Proof.
  apply for_each_prints. intros tool s.
  destruct (first_sentence_returns (tool_description tool)) as [x Hx].
  exists ("- " +:+ tool_name tool +:+ ": " +:+ x).
  unfold bind, lift. by rewrite Hx.
Qed.

Lemma create_sql_agent_spec (llm : ChatOpenAI) (toolkit : SQLDatabaseToolkit)
    (v : bool) (t : string) (p : bool) (pre : string) (st st' : State)
    (o : outcome AgentExecutor) :
  create_sql_agent llm toolkit v t p pre st = (o, st') →
  world st' = world st ∧ agent_cache st' = agent_cache st
  ∧ _db_instance st' = _db_instance st
  ∧ connected (events st') = connected (events st)
  ∧ match o with
    | Return agent =>
        agent_toolkit agent = toolkit
        ∧ built (events st') = built (events st) ++ [(llm_model llm, agent)]
    | Raise _ => built (events st') = built (events st)
    end.
Proof.
  cbv [create_sql_agent bind framework fresh_id emit ret].
  destruct (lib_raises _ _); intros [= <- <-]; simpl;
    rewrite ?built_app, ?connected_app, ?app_nil_r; simpl;
    rewrite ?app_nil_r; done.
Qed.

(** [create_pagila_agent] leaves the cache alone.  An agent it returns
    holds the stored database handle and is the one agent built; when it
    raises, no agent was built. *)
Lemma create_pagila_agent_spec (m : string) (st st' : State)
    (o : outcome AgentExecutor) :
  create_pagila_agent m st = (o, st') →
  world st' = world st ∧ agent_cache st' = agent_cache st
  ∧ match o with
    | Return agent =>
        db_step st st' ∧ _db_instance st' = Some (agent_db agent)
        ∧ built (events st') = built (events st) ++ [(m, agent)]
    | Raise e =>
        built (events st') = built (events st)
        ∧ (is_Exception e = true → db_step st st')
    end.
Proof.
  unfold create_pagila_agent. intros H.
  apply bind_inv in H as [(llm & st1 & H1 & H)|(e & H1 & ->)].
  2: { apply provider_spec in H1 as ((?&?&?) & ? & _). done. }
  apply provider_spec in H1 as ((Hw1 & Hc1 & Hb1) & Hd1 & Hm). simpl in Hm.
  apply bind_inv in H as [(db & st2 & H2 & H)|(e & H2 & ->)].
  2: { apply get_db_spec in H2 as [(?&?&?) He].
       split_and!; try congruence. }
  apply get_db_spec in H2 as [(Hw2 & Hc2 & Hb2) [Hd2 Hdb2]].
  pose proof (db_step_trans _ _ _ Hd1 Hd2) as Hd.
  apply bind_inv in H as [(toolkit & st3 & H3 & H)|(e & H3 & ->)].
  2: { apply new_SQLDatabaseToolkit_spec in H3 as [-> _].
       split_and!; congruence. }
  apply new_SQLDatabaseToolkit_spec in H3 as [-> Htk].
  apply bind_inv in H as [(tools & st3 & H3 & H)|(e & H3 & ->)].
  2: { apply get_tools_spec in H3 as ->. split_and!; congruence. }
  apply get_tools_spec in H3 as ->.
  apply bind_inv in H as [(? & st3 & H3 & H)|(e & H3 & ->)]; [|done].
  cbv [print emit] in H3. injection H3 as _ <-.
  apply bind_inv in H as [(? & st4 & H4 & H)|(e & H4 & ->)].
  2: { match type of H4 with for_each ?l _ ?s = _ =>
         destruct (print_tools_spec l s) as (? & E & _) end.
       congruence. }
  match type of H4 with for_each ?l _ ?s = _ =>
    destruct (print_tools_spec l s) as (s4 & E & (Hw4 & Hc4 & Hb4) & Hd4) end.
  rewrite E in H4. injection H4 as _ <-. simpl in Hw4, Hc4, Hb4.
  rewrite built_app, app_nil_r in Hb4.
  assert (db_step st2 s4) as Hd24.
  { eapply db_step_trans; [|exact Hd4]. auto with proc. }
  assert (_db_instance s4 = Some db) as Hdb4.
  { destruct Hd4 as [[-> _]|[? _]]; simpl in *; congruence. }
  apply bind_inv in H as [(? & st5 & H5 & H)|(e & H5 & ->)]; [|done].
  cbv [print emit] in H5. injection H5 as _ <-.
  apply create_sql_agent_spec in H as (Hw & Hc & Hi & Hcn & Ho). simpl in *.
  rewrite built_app, app_nil_r in Ho.
  rewrite connected_app, app_nil_r in Hcn.
  assert (db_step s4 st') as Hd4'. { left. by split. }
  pose proof (db_step_trans _ _ _ Hd (db_step_trans _ _ _ Hd24 Hd4')).
  split; [congruence|]. split; [congruence|].
  destruct o as [agent|e].
  - destruct Ho as [Ha Hb]. split_and!; [done| |].
    + unfold agent_db. rewrite Ha, Htk. congruence.
    + rewrite Hb, Hm. congruence.
  - split; [congruence|done].
Qed.

(** *** The agent cache *)

(** What a call of [get_agent_for_model] does: a cached agent is returned
    with the state untouched; otherwise an agent is built and stored, or
    nothing is stored. *)
Lemma get_agent_for_model_spec (m : string) (st st' : State)
    (o : outcome (option AgentExecutor)) :
  get_agent_for_model m st = (o, st') →
  world st' = world st
  ∧ match o with
    | Return (Some agent) =>
        agent_cache st !! m = Some agent ∧ st' = st
        ∨ agent_cache st !! m = None
          ∧ agent_cache st' = <[m := agent]> (agent_cache st)
          ∧ db_step st st'
          ∧ _db_instance st' = Some (agent_db agent)
          ∧ built (events st') = built (events st) ++ [(m, agent)]
    | Return None =>
        agent_cache st !! m = None
        ∧ agent_cache st' = agent_cache st
        ∧ built (events st') = built (events st)
        ∧ db_step st st'
    | Raise e =>
        is_Exception e = false
        ∧ agent_cache st !! m = None
        ∧ agent_cache st' = agent_cache st
        ∧ built (events st') = built (events st)
    end.
Proof.
  unfold get_agent_for_model. intros H.
  apply bind_inv in H as [(cache & st1 & H1 & H)|(e & H1 & _)]; [|done].
  injection H1 as <- <-.
  destruct (agent_cache st !! m) as [cached|] eqn:L.
  { injection H as <- <-. split; [done|]. by left. }
  apply try_except_inv in H
    as [(a & H & ->)|[(e & st1 & H & He & Hh)|(e & H & He & ->)]].
  - apply bind_inv in H as [(? & s1 & H1 & H)|(e & H1 & ?)]; [|done].
    cbv [print emit] in H1. injection H1 as _ <-.
    apply bind_inv in H as [(agent & s2 & H2 & H)|(e & H2 & ?)]; [|done].
    apply create_pagila_agent_spec in H2 as (Hw & Hc & Hd & Hdb & Hb).
    cbv [bind store_agent ret] in H. injection H as <- <-. simpl in *.
    rewrite built_app, app_nil_r in Hb.
    split; [done|]. right. split_and!; try done.
    + by rewrite Hc.
    + eapply db_step_trans; [|exact Hd]. auto with proc.
  - cbv [bind print emit ret] in Hh. injection Hh as <- <-. simpl.
    apply bind_inv in H as [(? & s1 & H1 & H)|(e' & H1 & ?)]; [|done].
    cbv [print emit] in H1. injection H1 as _ <-.
    apply bind_inv in H as [(agent & s2 & H2 & H)|(e' & H2 & [= <-])];
      [done|].
    apply create_pagila_agent_spec in H2 as (Hw & Hc & Hb & Hd).
    simpl in *. rewrite built_app, app_nil_r in Hb.
    rewrite built_app, app_nil_r.
    split; [done|]. split_and!; try done.
    eapply db_step_trans; [|eapply db_step_trans; [exact (Hd He)|]];
      auto with proc.
  - apply bind_inv in H as [(? & s1 & H1 & H)|(e' & H1 & ?)]; [|done].
    cbv [print emit] in H1. injection H1 as _ <-.
    apply bind_inv in H as [(agent & s2 & H2 & H)|(e' & H2 & [= <-])];
      [done|].
    apply create_pagila_agent_spec in H2 as (Hw & Hc & Hb & Hd).
    simpl in *. rewrite built_app, app_nil_r in Hb. done.
Qed.

(** A cached agent is returned as it is and nothing happens. *)
Lemma get_agent_for_model_hit (m : string) (st : State)
    (agent : AgentExecutor) :
  agent_cache st !! m = Some agent →
  get_agent_for_model m st = (Return (Some agent), st).
Proof.
  intros H. unfold get_agent_for_model, bind, read_agent_cache.
  by rewrite H.
Qed.

Lemma print_printed (line : string) (st : State) :
  print line st = (Return tt, printed [line] st).
Proof. reflexivity. Qed.

End ProcessFacts.

(** ** The server: an invariant of its runs *)

Module ServerFacts.

Import ProcessFacts.

(** *** The invariant *)

Lemma initial_consistent (w : World) : consistent (initial w).
Proof.
  split_and!; [done|done|]. intros m a. simpl. by rewrite lookup_empty.
Qed.

Lemma db_step_keeps (st st' : State) (db : SQLDatabase) :
  db_step st st' → _db_instance st = Some db → _db_instance st' = Some db.
Proof. intros [[-> _]|[? _]]; congruence. Qed.

Lemma db_step_connected (st st' : State) :
  db_step st st' →
  connected (events st) = option_list (_db_instance st) →
  connected (events st') = option_list (_db_instance st').
Proof.
  intros [[-> ->]|(Hn & db & -> & ->)] H; [done|].
  rewrite H, Hn. done.
Qed.

(** A step that keeps the cache and builds no agent keeps the
    invariant. *)
Lemma consistent_step (st st' : State) :
  consistent st → frame st st' → db_step st st' → consistent st'.
Proof.
  intros (Hc & Hd & Ha) (_ & Hcache & Hb) Hstep. split_and!.
  - intros m. rewrite (constructed_same m _ _ Hb), Hcache. apply Hc.
  - by apply (db_step_connected st).
  - intros m a. rewrite Hcache. intros H.
    eapply db_step_keeps; eauto.
Qed.

Lemma with_world_consistent (w : World) (st : State) :
  consistent st → consistent (with_world w st).
Proof. done. Qed.

Lemma get_agent_for_model_consistent (m : string) (st st' : State)
    (o : outcome (option AgentExecutor)) :
  get_agent_for_model m st = (o, st') →
  consistent st → ordinary o → consistent st'.
Proof.
  intros (Hw & H)%get_agent_for_model_spec Hcons Hord.
  destruct o as [[agent|]|e].
  - destruct H as [[_ ->]|(Hmiss & Hcache & Hstep & Hdb & Hb)]; [done|].
    destruct Hcons as (Hc & Hd & Ha). split_and!.
    + intros m'. rewrite (constructed_snoc m' m agent _ _ Hb), Hcache, Hc.
      destruct (String.eqb_spec m m') as [<-|Hne].
      * by rewrite Hmiss, lookup_insert_eq.
      * by rewrite lookup_insert_ne, app_nil_r.
    + by apply (db_step_connected st).
    + intros m' a. rewrite Hcache.
      destruct (decide (m = m')) as [<-|Hne].
      * rewrite lookup_insert_eq. congruence.
      * rewrite lookup_insert_ne by done. intros H.
        eapply db_step_keeps; eauto.
  - destruct H as (_ & Hcache & Hb & Hstep).
    by apply (consistent_step st).
  - destruct H as (He & _). simpl in Hord. congruence.
Qed.

Lemma boot_consistent (w : World) (st : State) :
  boot w = Some st → consistent st.
Proof.
  unfold boot, module_body, bind.
  destruct (get_agent_for_model _ (initial w)) as [[a|e] st1] eqn:E; [|done].
  intros [= <-].
  eapply get_agent_for_model_consistent;
    eauto using initial_consistent. done.
Qed.

Section Run.

Variable list_sort : (json → outcome json) → list json → outcome (list json).
Variable float : Type.
Variable float_sub : float → float → float.
Variable round : float → Z → float.

(** [get_models] only prints. *)
Lemma get_models_quiet (fetched : outcome Response) (st st' : State)
    (o : outcome json) :
  get_models list_sort fetched st = (o, st') →
  frame st st' ∧ db_step st st'.
Proof.
  cbv [get_models fetch_free_models bind try_except lift print emit ret].
  intros H. repeat case_match; simplify_eq/=; split; auto with proc.
Qed.

(** [chat] is a call of [get_agent_for_model] for the model named in
    the request, or for the default model, and then only prints. *)
Lemma chat_resolves (request : QueryRequest) (inv : Invocation float)
    (st st' : State) (o : outcome (QueryResponse float)) :
  chat float float_sub round request inv st = (o, st') →
  ∃ o1 st1,
    get_agent_for_model
      (or_else (model request) "mistralai/mistral-7b-instruct:free") st
    = (o1, st1)
    ∧ frame st1 st' ∧ db_step st1 st'
    ∧ (ordinary o → ordinary o1).
Proof.
  unfold Api.chat. intros H.
  apply bind_inv in H as [(agent & st1 & H1 & H)|(e & H1 & ->)].
  2: { exists (Raise e), st'. split_and!; auto with proc. }
  exists (Return agent), st1. split; [done|].
  destruct agent as [agent|].
  - cbv [bind try_except lift print emit ret raise] in H.
    repeat case_match; simplify_eq/=; unfold frame, db_step; simpl;
      rewrite ?built_app, ?connected_app; simpl; rewrite ?app_nil_r;
      auto 10.
  - injection H as <- <-. split_and!; auto with proc. done.
Qed.

Lemma step_consistent (i : input float) (st st' : State) :
  step list_sort float float_sub round i st = Some st' →
  consistent st → consistent st'.
Proof.
  destruct i as [|fetched|request inv|w]; simpl.
  - by intros [= <-].
  - destruct (get_models _ _ _) as [o s] eqn:E.
    apply get_models_quiet in E as [Hf Hd]. intros Hs Hc.
    assert (s = st') as <-.
    { destruct o; simpl in Hs; [|case_match]; congruence. }
    by apply (consistent_step st).
  - destruct (chat _ _ _ _ _ _) as [o s] eqn:E.
    apply chat_resolves in E as (o1 & s1 & E1 & Hf & Hd & Hord).
    intros Hs Hc.
    assert (s = st' ∧ ordinary o) as [<- Ho].
    { destruct o; simpl in Hs; [|case_match]; simplify_eq; done. }
    apply (consistent_step s1); [|done..].
    eapply get_agent_for_model_consistent; eauto.
  - intros [= <-]. apply with_world_consistent.
Qed.

Lemma serve_consistent (inputs : list (input float)) (st st' : State) :
  serve list_sort float float_sub round inputs st = Some st' →
  consistent st → consistent st'.
Proof.
  revert st. induction inputs as [|i inputs IH]; intros st; simpl.
  - by intros [= <-].
  - destruct (step _ _ _ _ i st) as [s|] eqn:E; [|done]. intros H Hc.
    apply (IH s H). by apply (step_consistent i st).
Qed.

Lemma process_consistent (w : World) (inputs : list (input float))
    (st : State) :
  process list_sort float float_sub round w inputs = Some st →
  consistent st.
Proof.
  unfold Api.process. destruct (boot w) as [s|] eqn:E; [|done].
  intros H. eapply serve_consistent; eauto using boot_consistent.
Qed.

End Run.

End ServerFacts.

(** ** The agent cache and the database handle over a run *)

Module CacheFacts.

Import ProcessFacts ServerFacts.

(** After the import the cache holds at most the default agent. *)
Lemma boot_cache (w : World) (st : State) (m : string)
    (agent : AgentExecutor) :
  boot w = Some st → agent_cache st !! m = Some agent →
  m = "mistralai/mistral-7b-instruct:free".
Proof.
  unfold boot, module_body, bind.
  destruct (get_agent_for_model _ (initial w)) as [[a|e] st1] eqn:E; [|done].
  intros [= <-]. apply get_agent_for_model_spec in E as [_ E].
  destruct a as [a|].
  - destruct E as [[E _]|(_ & -> & _)]; [done|].
    intros [[<- _]|[_ H]]%lookup_insert_Some; [done|].
    simpl in H. by rewrite lookup_empty in H.
  - destruct E as (_ & -> & _). done.
Qed.

Lemma get_agent_for_model_miss (m : string) (st : State) :
  agent_cache st !! m = None →
  get_agent_for_model m st
  = match create_pagila_agent m
            (printed ["Initializing agent for model: " +:+ m] st) with
    | (Return agent, st1) => (Return (Some agent), (store_agent m agent st1).2)
    | (Raise e, st1) =>
        if is_Exception e
        then (Return None,
              printed ["Failed to initialize agent for " +:+ m +:+ ": "
                       +:+ str e] st1)
        else (Raise e, st1)
    end.
Proof.
  intros Hmiss. unfold get_agent_for_model, bind at 1, read_agent_cache.
  rewrite Hmiss. unfold try_except, bind at 1. rewrite print_printed.
  unfold bind at 1.
  destruct (create_pagila_agent _ _) as [[agent|e] st1]; [done|].
  by destruct (is_Exception e).
Qed.

Lemma boot_unfold (w : World) :
  boot w
  = match get_agent_for_model "mistralai/mistral-7b-instruct:free"
            (initial w) with
    | (Return _, st) => Some st
    | (Raise _, _) => None
    end.
Proof.
  unfold boot, module_body, bind.
  by destruct (get_agent_for_model _ _) as [[?|?] ?].
Qed.

Lemma boot_miss (w : World) :
  get_agent_for_model "mistralai/mistral-7b-instruct:free" (initial w)
  = match create_pagila_agent "mistralai/mistral-7b-instruct:free"
            (printed ["Initializing agent for model: mistralai/mistral-7b-instruct:free"]
               (initial w)) with
    | (Return agent, st1) =>
        (Return (Some agent),
         (store_agent "mistralai/mistral-7b-instruct:free" agent st1).2)
    | (Raise e, st1) =>
        if is_Exception e
        then (Return None,
              printed ["Failed to initialize agent for mistralai/mistral-7b-instruct:free: "
                       +:+ str e] st1)
        else (Raise e, st1)
    end.
Proof. by rewrite get_agent_for_model_miss. Qed.

(** What the import leaves: the default agent, built and cached, when
    [create_pagila_agent] returns; nothing built and nothing cached when
    it raises an [Exception]. *)
Lemma boot_builds_default (w : World) (st : State) :
  boot w = Some st →
  match create_pagila_agent "mistralai/mistral-7b-instruct:free"
          (printed ["Initializing agent for model: mistralai/mistral-7b-instruct:free"]
             (initial w)) with
  | (Return agent, _) =>
      agent_cache st = {[ "mistralai/mistral-7b-instruct:free" := agent ]}
      ∧ built (events st) = [("mistralai/mistral-7b-instruct:free", agent)]
  | (Raise e, _) =>
      is_Exception e = true ∧ agent_cache st = ∅ ∧ built (events st) = []
  end.
Proof.
  rewrite boot_unfold, boot_miss.
  destruct (create_pagila_agent _ _) as [[agent|e] s1] eqn:Hc;
    pose proof (create_pagila_agent_spec _ _ _ _ Hc) as (_ & Hcache & Ho);
    simpl in Hcache.
  - intros [= <-]. destruct Ho as (_ & _ & Hb). simpl.
    rewrite Hcache, Hb. split; [apply insert_empty|done].
  - destruct Ho as [Hb _]. destruct (is_Exception e); [|done].
    intros [= <-]. simpl. rewrite built_app, Hb, Hcache. done.
Qed.

Section Run.

Variable list_sort : (json → outcome json) → list json → outcome (list json).
Variable float : Type.
Variable float_sub : float → float → float.
Variable round : float → Z → float.

(** One input leaves the cache as it is, or is a chat request that
    stores an agent for the model it resolves, which had none. *)
Lemma step_cache (i : input float) (st st' : State) :
  step list_sort float float_sub round i st = Some st' →
  agent_cache st' = agent_cache st
  ∨ ∃ agent m,
      resolved float [i] = [m]
      ∧ agent_cache st !! m = None
      ∧ agent_cache st' = <[m := agent]> (agent_cache st).
Proof.
  destruct i as [|fetched|request inv|w]; simpl.
  - intros [= <-]. by left.
  - destruct (get_models _ _ _) as [o s] eqn:E.
    apply get_models_quiet in E as [(_ & Hc & _) _]. intros Hs.
    assert (s = st') as <-.
    { destruct o; simpl in Hs; [|case_match]; congruence. }
    by left.
  - destruct (chat _ _ _ _ _ _) as [o s] eqn:E.
    apply chat_resolves in E as (o1 & s1 & E1 & (_ & Hc & _) & _ & _).
    intros Hs.
    assert (s = st') as <-.
    { destruct o; simpl in Hs; [|case_match]; congruence. }
    apply get_agent_for_model_spec in E1 as [_ E1]. rewrite Hc.
    destruct o1 as [[agent|]|e].
    + destruct E1 as [[_ ->]|(Hmiss & -> & _)]; [by left|].
      right. eauto.
    + destruct E1 as (_ & -> & _). by left.
    + destruct E1 as (_ & _ & -> & _). by left.
  - intros [= <-]. by left.
Qed.

(** One input leaves the stored database handle as it is, or stores
    the first one. *)
Lemma step_db_step (i : input float) (st st' : State) :
  step list_sort float float_sub round i st = Some st' → db_step st st'.
Proof.
  destruct i as [|fetched|request inv|w]; simpl.
  - intros [= <-]. apply db_step_refl.
  - destruct (get_models _ _ _) as [o s] eqn:E.
    apply get_models_quiet in E as [_ Hd]. intros Hs.
    assert (s = st') as <-; [|done].
    destruct o; simpl in Hs; [|case_match]; congruence.
  - destruct (chat _ _ _ _ _ _) as [o s] eqn:E.
    apply chat_resolves in E as (o1 & s1 & E1 & _ & Hd & Hord).
    intros Hs.
    assert (s = st' ∧ ordinary o) as [<- Ho].
    { destruct o; simpl in Hs; [|case_match]; simplify_eq; done. }
    apply get_agent_for_model_spec in E1 as [_ E1].
    apply (db_step_trans st s1); [|done].
    destruct o1 as [[agent|]|e].
    + destruct E1 as [[_ ->]|(_ & _ & ? & _)]; [apply db_step_refl|done].
    + by destruct E1 as (_ & _ & _ & ?).
    + destruct E1 as (He & _). specialize (Hord Ho). simpl in Hord.
      congruence.
  - intros [= <-]. by left.
Qed.

(** A stored database handle stays stored. *)
Lemma serve_db_keeps (inputs : list (input float)) (st st' : State)
    (db : SQLDatabase) :
  serve list_sort float float_sub round inputs st = Some st' →
  _db_instance st = Some db → _db_instance st' = Some db.
Proof.
  revert st. induction inputs as [|i inputs IH]; intros st; simpl.
  - by intros [= <-].
  - destruct (step _ _ _ _ i st) as [s|] eqn:E; [|done]. intros H Hdb.
    apply (IH s H). eapply db_step_keeps; [|done].
    by apply (step_db_step i).
Qed.

Lemma get_db_stored (st : State) (db : SQLDatabase) :
  _db_instance st = Some db → get_db st = (Return db, st).
Proof.
  intros H. unfold get_db, bind, read_db_instance. by rewrite H.
Qed.

Lemma constructed_elem (m : string) (agent : AgentExecutor)
    (evs : list event) :
  (m, agent) ∈ built evs → agent ∈ constructed m evs.
Proof.
  intros H. unfold constructed. apply list_elem_of_omap.
  exists (m, agent). split; [done|]. simpl. by rewrite String.eqb_refl.
Qed.

(** A cached agent stays cached. *)
Lemma serve_cache_keeps (inputs : list (input float)) (st st' : State)
    (m : string) (agent : AgentExecutor) :
  serve list_sort float float_sub round inputs st = Some st' →
  agent_cache st !! m = Some agent → agent_cache st' !! m = Some agent.
Proof.
  revert st. induction inputs as [|i inputs IH]; intros st; simpl.
  - by intros [= <-].
  - destruct (step _ _ _ _ i st) as [s|] eqn:E; [|done]. intros H Hm.
    apply (IH s H).
    apply step_cache in E as [->|(a & m' & _ & Hmiss & ->)]; [done|].
    rewrite lookup_insert_ne; [done|]. congruence.
Qed.

(** A cached agent was cached at the start, or a chat request resolved
    its model. *)
Lemma serve_cache_origin (inputs : list (input float)) (st st' : State)
    (m : string) (agent : AgentExecutor) :
  serve list_sort float float_sub round inputs st = Some st' →
  agent_cache st' !! m = Some agent →
  agent_cache st !! m = Some agent ∨ m ∈ resolved float inputs.
Proof.
  revert st. induction inputs as [|i inputs IH]; intros st; cbn [serve].
  - intros [= <-]. by left.
  - destruct (step _ _ _ _ i st) as [s|] eqn:E; [|done]. intros H Hm.
    assert (resolved float (i :: inputs)
            = resolved float [i] ++ resolved float inputs) as ->.
    { by destruct i. }
    destruct (IH s H Hm) as [Hs|Hin]; [|set_solver].
    apply step_cache in E as [Heq|(a & m' & -> & Hmiss & Heq)];
      rewrite Heq in Hs; [by left|].
    apply lookup_insert_Some in Hs as [[<- _]|[_ ?]]; [|by left].
    right. set_solver.
Qed.

(** C5: a cached agent is returned as it is, with nothing built and
    no event; a call that returned an agent is followed, after any
    further inputs, by calls that return that same agent and leave the
    state as it is; over a run of the server the agents built for a
    model are at most one, the one cached for it. *)
Theorem get_agent_for_model_idempotent :
  (∀ (m : string) (st : State) (agent : AgentExecutor),
     agent_cache st !! m = Some agent →
     get_agent_for_model m st = (Return (Some agent), st))
  ∧ (∀ (m : string) (st st1 : State) (agent : AgentExecutor),
       get_agent_for_model m st = (Return (Some agent), st1) →
       get_agent_for_model m st1 = (Return (Some agent), st1)
       ∧ ∀ (inputs : list (input float)) (st2 : State),
           serve list_sort float float_sub round inputs st1 = Some st2 →
           get_agent_for_model m st2 = (Return (Some agent), st2))
  ∧ (∀ (w : World) (inputs : list (input float)) (st : State) (m : string),
       process list_sort float float_sub round w inputs = Some st →
       constructed m (events st) = option_list (agent_cache st !! m)
       ∧ length (constructed m (events st)) ≤ 1).
Proof.
  split_and!.
  - apply get_agent_for_model_hit.
  - intros m st st1 agent [_ H]%get_agent_for_model_spec.
    assert (agent_cache st1 !! m = Some agent) as Hhit.
    { destruct H as [[? ->]|(_ & -> & _)]; [done|].
      apply lookup_insert_eq. }
    split; [by apply get_agent_for_model_hit|].
    intros inputs st2 Hs. apply get_agent_for_model_hit.
    by apply (serve_cache_keeps inputs st1).
  - intros w inputs st m (Hc & _)%process_consistent.
    split; [done|]. rewrite Hc. destruct (agent_cache st !! m); simpl; lia.
Qed.



End Run.

(** C7: when a call of [get_agent_for_model] gives no agent, by
    returning [None] or by raising, the cache is what it was and has no
    entry for the model; and in any later state with that cache the call
    runs [create_pagila_agent] again and, when it returns an agent,
    returns and caches that agent. *)
Theorem failed_resolve_not_cached (m : string) (st : State) :
  failed (get_agent_for_model m st).1 = true →
  agent_cache (get_agent_for_model m st).2 = agent_cache st
  ∧ agent_cache (get_agent_for_model m st).2 !! m = None
  ∧ ∀ (st2 st3 : State) (agent : AgentExecutor),
      agent_cache st2 = agent_cache (get_agent_for_model m st).2 →
      create_pagila_agent m
        (print ("Initializing agent for model: " +:+ m) st2).2
      = (Return agent, st3) →
      get_agent_for_model m st2
      = (Return (Some agent), (store_agent m agent st3).2).
Proof.
  destruct (get_agent_for_model m st) as [o st'] eqn:E. simpl.
  intros Hfail. apply get_agent_for_model_spec in E as [_ E].
  assert (agent_cache st' = agent_cache st ∧ agent_cache st !! m = None)
    as [Hc Hmiss].
  { destruct o as [[agent|]|e]; [done| |].
    - by destruct E as (? & ? & _).
    - by destruct E as (_ & ? & ? & _). }
  split; [done|]. split; [by rewrite Hc|].
  intros st2 st3 agent Hc2 Hcreate.
  unfold get_agent_for_model, bind at 1, read_agent_cache.
  rewrite Hc2, Hc, Hmiss.
  unfold try_except, bind at 1. unfold print, emit in *. simpl in Hcreate.
  unfold bind at 1. rewrite Hcreate. reflexivity.
Qed.

Lemma failed_resolve_not_cached_witness :
  failed (get_agent_for_model "gpt-4o" (initial demo_world)).1 = true
  ∧ agent_cache (get_agent_for_model "gpt-4o" (initial demo_world)).2
    = agent_cache (initial demo_world)
  ∧ agent_cache (get_agent_for_model "gpt-4o" (initial demo_world)).2
    !! "gpt-4o" = None.
Proof.
  split; [vm_compute; reflexivity|].
  pose proof (failed_resolve_not_cached "gpt-4o" (initial demo_world)) as H.
  split; apply H; vm_compute; reflexivity.
Defined.

Lemma get_agent_for_model_idempotent_witness :
  get_agent_for_model "mistralai/mistral-7b-instruct:free"
    (initial demo_world)
  = (Return (Some demo_agent), demo_started)
  ∧ get_agent_for_model "mistralai/mistral-7b-instruct:free" demo_started
    = (Return (Some demo_agent), demo_started).
Proof.
  split; [vm_compute; reflexivity|].
  apply (proj1 (proj2 (get_agent_for_model_idempotent
                         demo_sort Z Z.sub demo_round))
           "mistralai/mistral-7b-instruct:free" (initial demo_world)).
  vm_compute. reflexivity.
Defined.




End CacheFacts.

(** ** The endpoints *)

Module EndpointFacts.

Import ProcessFacts.

(** What the JSON helpers raise derives from [Exception]. *)
Lemma py_get_ordinary (v : json) (key : string) (default : json) :
  ordinary (py_get v key default).
Proof. by destruct v. Qed.

Lemma py_iter_ordinary (v : json) : ordinary (py_iter v).
Proof. by destruct v. Qed.

Lemma obind_ordinary {A B} (c : outcome A) (k : A → outcome B) :
  ordinary c → (∀ a, ordinary (k a)) → ordinary (obind c k).
Proof. destruct c; simpl; auto. Qed.

Lemma is_free_ordinary (model : json) : ordinary (is_free model).
Proof.
  unfold is_free.
  repeat (apply obind_ordinary; [apply py_get_ordinary|intros ?]);
    try case_match; try done.
  repeat (apply obind_ordinary; [apply py_get_ordinary|intros ?]). done.
Qed.

Lemma keep_free_ordinary (data : list json) : ordinary (keep_free data).
Proof.
  induction data as [|model rest IH]; simpl; [done|].
  apply obind_ordinary; [apply is_free_ordinary|intros keep].
  by apply obind_ordinary.
Qed.

Lemma name_key_ordinary (x : json) : ordinary (name_key x).
Proof. apply py_get_ordinary. Qed.

(** The sort of [Demo] raises what the key and the comparison raise. *)
Lemma insert_by_ordinary (k x : json) (sorted : list (json * json)) :
  ordinary (insert_by k x sorted).
Proof.
  induction sorted as [|[k' y] rest IH]; simpl; [done|].
  apply obind_ordinary.
  - destruct k', k; done.
  - intros []; [by apply obind_ordinary|done].
Qed.

Lemma sort_keyed_ordinary (l : list (json * json)) : ordinary (sort_keyed l).
Proof.
  induction l as [|[k x] rest IH]; simpl; [done|].
  apply obind_ordinary; [done|]. intros. apply insert_by_ordinary.
Qed.

Lemma demo_sort_ordinary (l : list json) : ordinary (demo_sort name_key l).
Proof.
  unfold demo_sort. apply obind_ordinary.
  - induction l as [|x rest IH]; simpl; [done|].
    apply obind_ordinary; [apply name_key_ordinary|intros k].
    by apply obind_ordinary.
  - intros keyed. apply obind_ordinary; [apply sort_keyed_ordinary|done].
Qed.

Section Endpoints.

Variable list_sort : (json → outcome json) → list json → outcome (list json).
Variable float : Type.
Variable float_sub : float → float → float.
Variable round : float → Z → float.

(** C8: whatever the fetch of the catalog gives, as long as what the
    outside raises derives from [Exception], [get_models] returns a
    list that starts with the three fixed descriptors; when the fetch
    raised or the status is not 200, the list is those three alone. *)
Theorem get_models_never_fails (fetched : outcome Response) (st : State) :
  ordinary fetched →
  (∀ r, fetched = Return r → ordinary (response_json r)) →
  (∀ l, ordinary (list_sort name_key l)) →
  ∃ (free : list json) (st' : State),
    get_models list_sort fetched st
    = (Return
         (JObject
            [("models",
              JArray
                (JObject [("id", JString "gpt-4o-mini");
                          ("name", JString "OpenAI GPT-4o Mini")]
                 :: JObject [("id", JString "gpt-3.5-turbo");
                             ("name", JString "OpenAI GPT-3.5 Turbo")]
                 :: JObject [("id", JString "gpt-4o");
                             ("name", JString "OpenAI GPT-4o")]
                 :: free))]), st')
    ∧ match fetched with
      | Raise _ => free = []
      | Return r => status_code r ≠ 200%Z → free = []
      end.
Proof.
  intros Hfetch Hjson Hsort.
  cbv [get_models fetch_free_models bind try_except lift print emit ret].
  destruct fetched as [r|e]; simpl in Hfetch.
  2: { rewrite Hfetch. by eexists [], _. }
  specialize (Hjson r eq_refl).
  destruct (Z.eqb_spec (status_code r) 200) as [Hs|Hs].
  2: { by eexists [], _. }
  destruct (response_json r) as [body|e]; simpl in Hjson.
  2: { rewrite Hjson. by eexists [], _. }
  pose proof (py_get_ordinary body "data" (JArray [])) as H1.
  destruct (py_get body "data" (JArray [])) as [data|e]; simpl in H1.
  2: { rewrite H1. by eexists [], _. }
  pose proof (py_iter_ordinary data) as H2.
  destruct (py_iter data) as [models|e]; simpl in H2.
  2: { rewrite H2. by eexists [], _. }
  pose proof (keep_free_ordinary models) as H3.
  destruct (keep_free models) as [free|e]; simpl in H3.
  2: { rewrite H3. by eexists [], _. }
  specialize (Hsort free).
  destruct (list_sort name_key free) as [sorted|e]; simpl in Hsort.
  2: { rewrite Hsort. by eexists [], _. }
  by eexists sorted, _.
Qed.

(** C10: when the [model] of a chat request is null or empty and the
    request succeeds, the agent that ran is the one
    [get_agent_for_model] gives for the default model, and the model
    the response reports is ["Unknown Model"]. *)
Theorem chat_reports_unknown_model (request : QueryRequest)
    (inv : Invocation float) (st st' : State)
    (r : QueryResponse float) :
  model request = None ∨ model request = Some "" →
  chat float float_sub round request inv st = (Return r, st') →
  ∃ agent : AgentExecutor,
    get_agent_for_model "mistralai/mistral-7b-instruct:free" st
    = (Return (Some agent), st')
    ∧ agent_run float inv agent (query request) = Return (response float r)
    ∧ metadata float r
      = Some {| metadata_model := "Unknown Model";
                metadata_duration :=
                  round (float_sub (time_after float inv)
                           (time_before float inv)) 2 |}.
Proof.
  intros Hmodel. unfold chat.
  assert (or_else (model request) "mistralai/mistral-7b-instruct:free"
          = "mistralai/mistral-7b-instruct:free"
          ∧ or_else (model request) "Unknown Model" = "Unknown Model")
    as [-> ->] by (by destruct Hmodel as [-> | ->]).
  intros H.
  apply bind_inv in H as [(agent & st1 & H1 & H)|(e & H1 & ?)]; [|done].
  destruct agent as [agent|]; [|done].
  exists agent.
  cbv [try_except bind lift ret print emit raise] in H.
  destruct (agent_run float inv agent (query request)) as [text|e].
  - injection H as <- <-. done.
  - repeat case_match; done.
Qed.

End Endpoints.

Lemma get_models_never_fails_witness :
  ordinary (Raise (Exn ConnectionError "Max retries exceeded") : outcome Response)
  ∧ ∃ (free : list json) (st' : State),
      get_models demo_sort
        (Raise (Exn ConnectionError "Max retries exceeded"))
        (initial demo_world)
      = (Return
           (JObject
              [("models",
                JArray
                  (JObject [("id", JString "gpt-4o-mini");
                            ("name", JString "OpenAI GPT-4o Mini")]
                   :: JObject [("id", JString "gpt-3.5-turbo");
                               ("name", JString "OpenAI GPT-3.5 Turbo")]
                   :: JObject [("id", JString "gpt-4o");
                               ("name", JString "OpenAI GPT-4o")]
                   :: free))]), st')
      ∧ free = [].
Proof.
  split; [reflexivity|].
  apply (get_models_never_fails demo_sort
           (Raise (Exn ConnectionError "Max retries exceeded"))
           (initial demo_world)).
  - reflexivity.
  - intros r. discriminate.
  - apply demo_sort_ordinary.
Defined.

Lemma chat_reports_unknown_model_witness :
  chat Z Z.sub demo_round {| query := "hi"; model := None |}
    demo_invocation (initial demo_world)
  = (Return {| response := greeting;
               metadata := Some {| metadata_model := "Unknown Model";
                                   metadata_duration := 3%Z |} |},
     demo_started)
  ∧ ∃ agent : AgentExecutor,
      get_agent_for_model "mistralai/mistral-7b-instruct:free"
        (initial demo_world)
      = (Return (Some agent), demo_started)
      ∧ agent_run Z demo_invocation agent "hi" = Return greeting
      ∧ Some {| metadata_model := "Unknown Model";
                metadata_duration := 3%Z |}
        = Some {| metadata_model := "Unknown Model";
                  metadata_duration :=
                    demo_round (1700000003 - 1700000000)%Z 2 |}.
Proof.
  split; [vm_compute; reflexivity|].
  apply (chat_reports_unknown_model Z Z.sub demo_round
           {| query := "hi"; model := None |} demo_invocation
           (initial demo_world) demo_started
           {| response := greeting;
              metadata := Some {| metadata_model := "Unknown Model";
                                  metadata_duration := 3%Z |} |}).
  - left. reflexivity.
  - vm_compute. reflexivity.
Defined.

End EndpointFacts.

(** ** The definitions at work *)

Module Examples.

(** A marker without a closing backtick: all that follows is the answer. *)
Example fallback_unclosed :
  fallback_handler (Exn ValueError "Could not parse LLM output: `There are 1000 films")
  = Return "Output parsed but format incorrect. Please repeat this EXACT answer with the prefix 'Final Answer:': There are 1000 films".
Proof. vm_compute. reflexivity. Qed.

(** The text tested with [in] alone does not start an extraction. *)
Example fallback_head_only :
  fallback_handler (Exn ValueError "Could not parse LLM output: no backtick")
  = Return "Error: Could not parse LLM output: no backtick. Please check your output format. If you have the answer, output it as 'Final Answer: [your answer]'.".
Proof. vm_compute. reflexivity. Qed.

(** The catalog gives the free models, sorted by name, behind the fixed
    three. *)
Example models_with_catalog :
  (get_models demo_sort (Return demo_catalog) (initial demo_world)).1
  = Return (JObject
      [("models",
        JArray (openai_models
                ++ [free_model "a/alpha:free" "Alpha";
                    free_model "z/zeta:free" "Zeta"]))]).
Proof. vm_compute. reflexivity. Qed.

(** A status other than 200 prints a warning and gives the fixed three. *)
Example models_with_503 :
  get_models demo_sort
    (Return {| status_code := 503; response_json := Raise (Exn JSONDecodeError "Expecting value") |})
    (initial demo_world)
  = (Return (JObject [("models", JArray openai_models)]),
     (print "Warning: Failed to fetch OpenRouter models: 503"
        (initial demo_world)).2).
Proof. vm_compute. reflexivity. Qed.

(** A body that is no JSON is absorbed too. *)
Example models_with_bad_body :
  (get_models demo_sort
     (Return {| status_code := 200; response_json := Raise (Exn JSONDecodeError "Expecting value") |})
     (initial demo_world)).1
  = Return (JObject [("models", JArray openai_models)]).
Proof. vm_compute. reflexivity. Qed.

(** Without the key of the direct provider a [gpt-] model gives status
    500, and nothing is cached. *)
Example chat_without_openai_key :
  let r := chat Z Z.sub demo_round {| query := "hi"; model := Some "gpt-4o" |}
             demo_invocation demo_started in
  r.1 = Raise (Exn (HTTPException 500)
                 "Failed to initialize agent for model gpt-4o")
  ∧ agent_cache r.2 = agent_cache demo_started.
Proof. vm_compute. split; reflexivity. Qed.

(** A rate limit of the provider gives status 429. *)
Example chat_rate_limited :
  (chat Z Z.sub demo_round {| query := "hi"; model := None |}
     {| time_before := 0%Z;
        agent_run := λ _ _, Raise (Exn RateLimitError "Error code: 429");
        time_after := 1%Z |}
     demo_started).1
  = Raise (Exn (HTTPException 429)
             "Rate limit exceeded (429). The AI model is busy or you have run out of credits. Please try again in 10-20 seconds.").
Proof. vm_compute. reflexivity. Qed.

(** A request without the [model] field reports the default model. *)
Example chat_model_omitted :
  (chat Z Z.sub demo_round (request_of_query "hi") demo_invocation
     demo_started).1
  = Return {| response := greeting;
              metadata :=
                Some {| metadata_model := "mistralai/mistral-7b-instruct:free";
                        metadata_duration := 3%Z |} |}.
Proof. vm_compute. reflexivity. Qed.

(** Without the key of the routing provider the import ends the
    process. *)
Example boot_without_key :
  boot {| environ := ∅; from_uri := from_uri demo_world;
          usable_table_names := usable_table_names demo_world;
          toolkit_tools := demo_tools; lib_raises := λ _, None |}
  = None.
Proof. vm_compute. reflexivity. Qed.

(** With the database down the import ends the process too. *)
Example boot_without_database :
  boot {| environ := environ demo_world;
          from_uri := λ _, Raise (Exn ConnectionError "connection refused");
          usable_table_names := usable_table_names demo_world;
          toolkit_tools := demo_tools; lib_raises := λ _, None |}
  = None.
Proof. vm_compute. reflexivity. Qed.

(** After the demo run: two agents, one database handle. *)
Example demo_run :
  demo_process demo_world demo_inputs = Some demo_final
  ∧ length (built (events demo_final)) = 2
  ∧ connected (events demo_final) = [demo_db].
Proof. vm_compute. split_and!; reflexivity. Qed.

(** When the client of the default model cannot be built the import
    goes on: nothing is built and the cache is empty. *)
Example boot_without_client :
  (λ st, (agent_cache st, built (events st))) <$> boot clientless_world
  = Some (∅, []).
Proof. vm_compute. reflexivity. Qed.

(** A free entry whose name is null beside one whose name is a text:
    the demo sort raises on comparing the two, and the whole catalog is
    lost. *)
Example models_with_nameless_entry :
  get_models demo_sort (Return nameless_catalog) (initial demo_world)
  = (Return (JObject [("models", JArray openai_models)]),
     printed ["Warning: Could not connect to OpenRouter: '<' not supported between instances"]
       (initial demo_world)).
Proof. vm_compute. reflexivity. Qed.

(** White space outside ASCII is stripped as well: a no-break space in
    front, an em space behind. *)
Example first_sentence_strips_unicode :
  first_sentence (utf8 160 +:+ " List tables. Then" +:+ utf8 8195)
  = Return "List tables".
Proof. vm_compute. reflexivity. Qed.

Example strip_unicode :
  strip (utf8 133 +:+ utf8 8232 +:+ "a b" +:+ utf8 12288 +:+ utf8 5760)
  = "a b".
Proof. vm_compute. reflexivity. Qed.

End Examples.

(** ** [backend/agent.py]: providers, failures and the script *)

Module AgentFacts.

Import TextFacts SplitFacts ProcessFacts.

Lemma truthy_Some (v : option string) (k : string) :
  truthy v = Some k → v = Some k ∧ k ≠ "".
Proof. destruct v as [[|c s]|]; simpl; intros [= <-]; by split. Qed.

Lemma get_llm_returns (m : string) (st st' : State) (llm : ChatOpenAI) :
  startswith m "gpt-" = false →
  get_llm m st = (Return llm, st') →
  st' = st ∧ routed (environ (world st)) m llm.
Proof.
  intros Hm. unfold routed, key_variable, base_of. rewrite Hm.
  cbv [get_llm bind getenv new_ChatOpenAI framework ret print emit raise].
  destruct (truthy _) as [k|] eqn:Hk; [|done].
  apply truthy_Some in Hk as [Hk ?].
  destruct (lib_raises _ _); intros [= <- <-]. by simpl.
Qed.

Lemma get_openai_llm_returns (m : string) (st st' : State)
    (llm : ChatOpenAI) :
  startswith m "gpt-" = true →
  get_openai_llm m st = (Return llm, st') →
  st' = st ∧ routed (environ (world st)) m llm.
Proof.
  intros Hm. unfold routed, key_variable, base_of. rewrite Hm.
  cbv [get_openai_llm bind getenv new_ChatOpenAI framework ret print emit
       raise].
  destruct (truthy _) as [k|] eqn:Hk; [|done].
  apply truthy_Some in Hk as [Hk ?].
  destruct (lib_raises _ _); intros [= <- <-]. by simpl.
Qed.

Lemma provider_returns (m : string) (st st' : State) (llm : ChatOpenAI) :
  (if startswith m "gpt-"
   then bind (print ("Using OpenAI provider for model: " +:+ m))
          (λ _, get_openai_llm m)
   else bind (print ("Using OpenRouter provider for model: " +:+ m))
          (λ _, get_llm m)) st = (Return llm, st') →
  routed (environ (world st)) m llm.
Proof.
  destruct (startswith m "gpt-") eqn:Hm; cbv [bind print emit].
  - by intros [_ ?]%get_openai_llm_returns.
  - by intros [_ ?]%get_llm_returns.
Qed.

Lemma create_sql_agent_returns (llm : ChatOpenAI)
    (toolkit : SQLDatabaseToolkit) (v : bool) (t : string) (p : bool)
    (pre : string) (st st' : State) (agent : AgentExecutor) :
  create_sql_agent llm toolkit v t p pre st = (Return agent, st') →
  agent_llm agent = llm ∧ agent_toolkit agent = toolkit.
Proof.
  cbv [create_sql_agent bind framework fresh_id emit ret].
  destruct (lib_raises _ _); [done|]. by intros [= <- <-].
Qed.

Lemma new_SQLDatabaseToolkit_returns (db : SQLDatabase) (llm : ChatOpenAI)
    (st st' : State) (toolkit : SQLDatabaseToolkit) :
  new_SQLDatabaseToolkit db llm st = (Return toolkit, st') →
  toolkit_llm toolkit = llm.
Proof.
  cbv [new_SQLDatabaseToolkit bind framework ret].
  destruct (lib_raises _ _); [done|]. by intros [= <- <-].
Qed.

(** The client a returned agent holds, and the one its toolkit holds. *)
Lemma create_pagila_agent_returns (m : string) (st st' : State)
    (agent : AgentExecutor) :
  create_pagila_agent m st = (Return agent, st') →
  routed (environ (world st)) m (agent_llm agent)
  ∧ toolkit_llm (agent_toolkit agent) = agent_llm agent.
Proof.
  unfold create_pagila_agent. intros H.
  apply bind_inv in H as [(llm & st1 & H1 & H)|(e & _ & ?)]; [|done].
  apply provider_returns in H1.
  apply bind_inv in H as [(db & st2 & _ & H)|(e & _ & ?)]; [|done].
  apply bind_inv in H as [(toolkit & st3 & H3 & H)|(e & _ & ?)]; [|done].
  apply new_SQLDatabaseToolkit_returns in H3.
  apply bind_inv in H as [(tools & st4 & _ & H)|(e & _ & ?)]; [|done].
  apply bind_inv in H as [(? & st5 & _ & H)|(e & _ & ?)]; [|done].
  apply bind_inv in H as [(? & st6 & _ & H)|(e & _ & ?)]; [|done].
  apply bind_inv in H as [(? & st7 & _ & H)|(e & _ & ?)]; [|done].
  apply create_sql_agent_returns in H as [-> ->]. done.
Qed.

(** X1: an agent [create_pagila_agent] returns for a model holds a
    client for that model with temperature 0; for a model whose name
    starts with [gpt-] the client has no base address and the key of
    [OPENAI_API_KEY], for any other the base address of OpenRouter and
    the key of [OPENROUTER_API_KEY]; the key is not empty, and the
    toolkit of the agent holds the same client. *)
Theorem created_agent_routed (m : string) (st st' : State)
    (agent : AgentExecutor) :
  create_pagila_agent m st = (Return agent, st') →
  llm_model (agent_llm agent) = m
  ∧ temperature (agent_llm agent) = 0%Z
  ∧ openai_api_base (agent_llm agent)
    = (if startswith m "gpt-" then None
       else Some "https://openrouter.ai/api/v1")
  ∧ environ (world st)
      !! (if startswith m "gpt-" then "OPENAI_API_KEY"
          else "OPENROUTER_API_KEY")
    = Some (openai_api_key (agent_llm agent))
  ∧ openai_api_key (agent_llm agent) ≠ ""
  ∧ toolkit_llm (agent_toolkit agent) = agent_llm agent.
Proof.
  intros [(H1 & H2 & H3 & H4 & H5) H6]%create_pagila_agent_returns.
  unfold base_of in H3. unfold key_variable in H4.
  destruct (startswith m "gpt-"); done.
Qed.

Lemma created_agent_routed_witness :
  create_pagila_agent "mistralai/mistral-7b-instruct:free"
    (initial demo_world)
  = (Return demo_agent,
     (create_pagila_agent "mistralai/mistral-7b-instruct:free"
        (initial demo_world)).2)
  ∧ llm_model (agent_llm demo_agent) = "mistralai/mistral-7b-instruct:free"
  ∧ temperature (agent_llm demo_agent) = 0%Z.
Proof.
  split; [vm_compute; reflexivity|].
  pose proof (created_agent_routed "mistralai/mistral-7b-instruct:free"
                (initial demo_world)
                (create_pagila_agent "mistralai/mistral-7b-instruct:free"
                   (initial demo_world)).2 demo_agent) as H.
  split; apply H; vm_compute; reflexivity.
Defined.

(** *** Printed lines *)

Lemma connected_prints (lines : list string) :
  connected (Print <$> lines) = [].
Proof. induction lines; simpl; auto. Qed.

Lemma built_prints (lines : list string) : built (Print <$> lines) = [].
Proof. induction lines; simpl; auto. Qed.

Lemma connected_printed (lines : list string) (st : State) :
  connected (events (printed lines st)) = connected (events st).
Proof.
  simpl. by rewrite connected_app, connected_prints, app_nil_r.
Qed.

Lemma built_printed (lines : list string) (st : State) :
  built (events (printed lines st)) = built (events st).
Proof. simpl. by rewrite built_app, built_prints, app_nil_r. Qed.

Lemma printed_printed (l1 l2 : list string) (st : State) :
  printed l2 (printed l1 st) = printed (l1 ++ l2) st.
Proof. unfold printed. simpl. by rewrite fmap_app, app_assoc. Qed.

Lemma create_pagila_agent_missing_key (m : string) (st : State) :
  truthy (environ (world st) !! key_variable m) = None →
  create_pagila_agent m st
  = (Raise (missing_key m), printed (missing_key_lines m) st).
Proof.
  unfold key_variable, missing_key, missing_key_lines. intros Hkey.
  cbv [create_pagila_agent bind print emit get_llm get_openai_llm getenv
       raise].
  destruct (startswith m "gpt-"); simpl; rewrite Hkey;
    unfold printed; simpl; by rewrite <-app_assoc.
Qed.

(** X2: when the key of the provider of the model is not set, or is
    empty, [create_pagila_agent] prints two lines and raises, a
    [ValueError] for a [gpt-] model and [SystemExit] for any other,
    before it touches the database: no handle is opened or stored. *)
Theorem missing_key_stops_early (m : string) (st : State) :
  truthy (environ (world st)
            !! (if startswith m "gpt-" then "OPENAI_API_KEY"
                else "OPENROUTER_API_KEY")) = None →
  create_pagila_agent m st
  = (Raise (if startswith m "gpt-"
            then Exn ValueError "OPENAI_API_KEY not set in environment"
            else sys_exit_1),
     printed (missing_key_lines m) st)
  ∧ connected (events (create_pagila_agent m st).2) = connected (events st)
  ∧ _db_instance (create_pagila_agent m st).2 = _db_instance st.
Proof.
  intros Hkey. rewrite (create_pagila_agent_missing_key m st Hkey).
  split; [done|]. split; [apply connected_printed|done].
Qed.

Lemma missing_key_stops_early_witness :
  truthy (environ (world (initial demo_world))
            !! (if startswith "gpt-4o" "gpt-" then "OPENAI_API_KEY"
                else "OPENROUTER_API_KEY")) = None
  ∧ create_pagila_agent "gpt-4o" (initial demo_world)
    = (Raise (if startswith "gpt-4o" "gpt-"
              then Exn ValueError "OPENAI_API_KEY not set in environment"
              else sys_exit_1),
       printed (missing_key_lines "gpt-4o") (initial demo_world)).
Proof.
  split; [vm_compute; reflexivity|].
  apply (missing_key_stops_early "gpt-4o" (initial demo_world)).
  vm_compute. reflexivity.
Defined.

Lemma get_db_raises (st st' : State) (e : exn) :
  get_db st = (Raise e, st') →
  is_Exception e = false ∧ _db_instance st = None ∧ _db_instance st' = None.
Proof.
  cbv [get_db bind read_db_instance getenv try_except
       SQLDatabase_from_uri get_usable_table_names print emit fresh_id
       write_db_instance ret raise].
  intros H. repeat case_match; simplify_eq/=; done.
Qed.

Lemma get_db_no_uri (st : State) :
  _db_instance st = None →
  truthy (environ (world st) !! "POSTGRES_DB_URI") = None →
  get_db st
  = (Raise sys_exit_1,
     printed ["Error: POSTGRES_DB_URI not found in .env"] st).
Proof.
  intros Hdb Huri.
  cbv [get_db bind read_db_instance getenv print emit raise].
  by rewrite Hdb, Huri.
Qed.

(** With no handle stored, [get_db] raises as soon as the address is
    missing, the connection raises or listing the tables raises. *)
Lemma get_db_must_raise (st : State) :
  _db_instance st = None →
  truthy (environ (world st) !! "POSTGRES_DB_URI") = None
  ∨ (∃ uri e, truthy (environ (world st) !! "POSTGRES_DB_URI") = Some uri
              ∧ from_uri (world st) uri = Raise e)
  ∨ (∃ e, usable_table_names (world st) = Raise e) →
  ∃ e st', get_db st = (Raise e, st').
Proof.
  intros Hdb H.
  cbv [get_db bind read_db_instance getenv try_except
       SQLDatabase_from_uri get_usable_table_names print emit fresh_id
       write_db_instance ret raise].
  rewrite Hdb.
  destruct H as [->|[(uri & e & -> & ->)|[e He]]]; [eauto| |].
  - destruct (is_Exception e); eauto.
  - destruct (truthy _) as [uri|]; [|eauto].
    destruct (from_uri _ _) as [d|e0]; simpl.
    + rewrite He. destruct (is_Exception e); eauto.
    + destruct (is_Exception e0); eauto.
Qed.

(** X5: [get_db] raises nothing an [except Exception] catches, and
    when it raises no handle is stored.  With no handle stored: a
    missing or empty [POSTGRES_DB_URI] prints one line and raises
    [SystemExit(1)]; an exception of the connection is printed and
    replaced by [SystemExit(1)]; and when the connection opens but
    listing the tables raises, the handle that was opened is not
    stored. *)
Theorem get_db_failures :
  (∀ (st st' : State) (e : exn),
     get_db st = (Raise e, st') →
     is_Exception e = false
     ∧ _db_instance st = None ∧ _db_instance st' = None)
  ∧ (∀ st : State,
       _db_instance st = None →
       truthy (environ (world st) !! "POSTGRES_DB_URI") = None →
       get_db st
       = (Raise sys_exit_1,
          printed ["Error: POSTGRES_DB_URI not found in .env"] st))
  ∧ (∀ (st : State) (uri : string) (e : exn),
       _db_instance st = None →
       truthy (environ (world st) !! "POSTGRES_DB_URI") = Some uri →
       from_uri (world st) uri = Raise e →
       is_Exception e = true →
       get_db st
       = (Raise sys_exit_1,
          printed ["Error connecting to database: " +:+ str e] st))
  ∧ (∀ (st : State) (uri d : string) (e : exn),
       _db_instance st = None →
       truthy (environ (world st) !! "POSTGRES_DB_URI") = Some uri →
       from_uri (world st) uri = Return d →
       usable_table_names (world st) = Raise e →
       is_Exception e = true →
       (get_db st).1 = Raise sys_exit_1
       ∧ _db_instance (get_db st).2 = None
       ∧ connected (events (get_db st).2)
         = connected (events st)
           ++ [{| db_id := next_id st; db_uri := uri; dialect := d |}]).
Proof.
  split_and!.
  - apply get_db_raises.
  - apply get_db_no_uri.
  - intros st uri e Hdb Huri Hfrom He.
    cbv [get_db bind read_db_instance getenv try_except
         SQLDatabase_from_uri print emit raise].
    by rewrite Hdb, Huri, Hfrom, He.
  - intros st uri d e Hdb Huri Hfrom Hnames He.
    cbv [get_db bind read_db_instance getenv try_except
         SQLDatabase_from_uri get_usable_table_names print emit fresh_id
         write_db_instance ret raise].
    rewrite Hdb, Huri, Hfrom. simpl. rewrite Hnames, He. simpl.
    split_and!; [done|done|].
    rewrite !connected_app. simpl. by rewrite !app_nil_r.
Qed.

Lemma get_db_failures_witness :
  _db_instance (initial down_world) = None
  ∧ truthy (environ (world (initial down_world)) !! "POSTGRES_DB_URI")
    = Some "postgresql://postgres@localhost:5432/pagila"
  ∧ from_uri (world (initial down_world))
      "postgresql://postgres@localhost:5432/pagila" = Raise refused
  ∧ is_Exception refused = true
  ∧ get_db (initial down_world)
    = (Raise sys_exit_1,
       printed ["Error connecting to database: " +:+ str refused]
         (initial down_world)).
Proof.
  do 4 (split; [vm_compute; reflexivity|]).
  apply (proj1 (proj2 (proj2 get_db_failures)) (initial down_world)
           "postgresql://postgres@localhost:5432/pagila" refused);
    vm_compute; reflexivity.
Defined.

(** *** The line printed for a tool *)

Lemma prefix_app_r (p s t : string) :
  String.prefix p s = true → String.prefix p (s +:+ t) = true.
Proof.
  intros [u ->]%prefix_true. rewrite text_app_assoc. apply prefix_app.
Qed.

Lemma slice_to_length_le (j : nat) (s : string) :
  String.length (slice_to j s) ≤ j.
Proof.
  revert s. induction j as [|j IH]; intros [|c s]; simpl; try lia.
  specialize (IH s). lia.
Qed.

(** Before its first occurrence in a text a separator does not occur. *)
Lemma find_before_first (s sep : string) (k : nat) :
  sep ≠ "" → find s sep = Some k → find (slice_to k s) sep = None.
Proof.
  intros Hsep [Hk Hlt]%find_Some_first. apply absent_find. intros i Hi.
  pose proof (slice_to_length_le k s) as Hle.
  destruct (occurs_at_bound _ _ _ Hi) as [Hb|?]; [|done].
  assert (0 < String.length sep) by (destruct sep; simpl; [done|lia]).
  apply (Hlt i); [lia|]. unfold occurs_at in *.
  rewrite <-(slice_to_from k s), slice_from_app_le by lia.
  by apply prefix_app_r.
Qed.

Lemma first_sentence_up_to_next (description : string) :
  first_sentence description
  = Return (up_to_next "." (strip description)).
Proof.
  unfold first_sentence, up_to_next.
  change (split (strip description) ".")
    with (Return (splitn (String.length (strip description))
                    (strip description) ".")).
  destruct (String.length (strip description)) eqn:Hlen; cbn [splitn obind].
  - apply length_zero in Hlen as ->. reflexivity.
  - destruct (find (strip description) "."); reflexivity.
Qed.

(** *** White space *)

Lemma blank_app (a b : string) : blank a → blank b → blank (a +:+ b).
Proof.
  induction 1 as [|cp s Hcp _ IH]; intros Hb; [done|].
  rewrite text_app_assoc. by constructor; [|apply IH].
Qed.

Lemma utf8_length (cp : N) : 1 ≤ String.length (utf8 cp).
Proof. unfold utf8. repeat case_match; simpl; lia. Qed.

Lemma after_space_Some (s rest : string) :
  after_space s = Some rest →
  ∃ cp : N, cp ∈ whitespace ∧ s = utf8 cp +:+ rest.
Proof.
  unfold after_space.
  destruct (List.filter _ whitespace) as [|cp l] eqn:F; [done|].
  intros [= <-]. exists cp.
  assert (In cp (List.filter (λ cp, String.prefix (utf8 cp) s) whitespace))
    as [Hin Hp]%filter_In by (rewrite F; by left).
  split; [by apply list_elem_of_In|].
  apply prefix_true in Hp as [t ->]. by rewrite slice_from_app.
Qed.

Lemma after_space_None (s : string) (cp : N) :
  after_space s = None → cp ∈ whitespace →
  String.prefix (utf8 cp) s = false.
Proof.
  unfold after_space. intros H Hin%list_elem_of_In.
  destruct (String.prefix (utf8 cp) s) eqn:E; [|done].
  assert (In cp (List.filter (λ cp, String.prefix (utf8 cp) s) whitespace))
    as Hf by (apply filter_In; by split).
  by destruct (List.filter _ whitespace).
Qed.

Lemma before_space_Some (s rest : string) :
  before_space s = Some rest →
  ∃ cp : N, cp ∈ whitespace ∧ s = rest +:+ utf8 cp.
Proof.
  unfold before_space.
  destruct (List.filter _ whitespace) as [|cp l] eqn:F; [done|].
  intros [= <-]. exists cp.
  assert (In cp (List.filter (λ cp, endswith s (utf8 cp)) whitespace))
    as [Hin Hp]%filter_In by (rewrite F; by left).
  split; [by apply list_elem_of_In|].
  by apply endswith_true.
Qed.

Lemma lstrip_n_spec (n : nat) (s : string) :
  String.length s ≤ n →
  ∃ before : string,
    s = before +:+ lstrip_n n s ∧ blank before
    ∧ after_space (lstrip_n n s) = None.
Proof.
  revert s. induction n as [|n IH]; intros s Hn.
  - destruct s; [|simpl in Hn; lia].
    exists "". split_and!; [done|constructor|done].
  - cbn [lstrip_n]. destruct (after_space s) as [rest|] eqn:E.
    + apply after_space_Some in E as (cp & Hcp & ->).
      rewrite text_length_app in Hn. pose proof (utf8_length cp).
      destruct (IH rest) as (b & Hb & Hbl & Hnone); [lia|].
      exists (utf8 cp +:+ b). split_and!; [|by constructor|done].
      rewrite text_app_assoc. by rewrite <- Hb.
    + exists "". split_and!; [done|constructor|done].
Qed.

Lemma rstrip_n_spec (n : nat) (s : string) :
  String.length s ≤ n →
  ∃ after : string,
    s = rstrip_n n s +:+ after ∧ blank after
    ∧ before_space (rstrip_n n s) = None.
Proof.
  revert s. induction n as [|n IH]; intros s Hn.
  - destruct s; [|simpl in Hn; lia].
    exists "". split_and!; [done|constructor|done].
  - cbn [rstrip_n]. destruct (before_space s) as [rest|] eqn:E.
    + apply before_space_Some in E as (cp & Hcp & ->).
      rewrite text_length_app in Hn. pose proof (utf8_length cp).
      destruct (IH rest) as (a & Ha & Hbl & Hnone); [lia|].
      exists (a +:+ utf8 cp). split_and!; [| |done].
      * rewrite <- text_app_assoc. by rewrite <- Ha.
      * apply blank_app; [done|].
        rewrite <- (text_app_nil_r (utf8 cp)). constructor; [done|constructor].
    + exists "". split_and!; [by rewrite text_app_nil_r|constructor|done].
Qed.

(** [s.strip()] is [s] without the white space in front and behind; it
    neither begins nor ends with a white space character. *)
Lemma strip_spec (s : string) :
  ∃ before after : string,
    s = before +:+ strip s +:+ after
    ∧ blank before ∧ blank after
    ∧ after_space (strip s) = None
    ∧ before_space (strip s) = None.
Proof.
  unfold strip, lstrip, rstrip.
  destruct (lstrip_n_spec (String.length s) s) as (b & Hb & Hbl & Hl); [done|].
  destruct (rstrip_n_spec (String.length (lstrip_n (String.length s) s))
              (lstrip_n (String.length s) s)) as (a & Ha & Hal & Hr); [done|].
  exists b, a. split_and!; [by rewrite <- Ha|done|done| |done].
  destruct (after_space (rstrip_n _ _)) as [rest|] eqn:E; [|done].
  apply after_space_Some in E as (cp & Hcp & E).
  pose proof (after_space_None _ cp Hl Hcp) as Hno.
  rewrite Ha, E, text_app_assoc, prefix_app in Hno. done.
Qed.

(** X13: the text printed for a tool, [description.strip().split('.')[0]],
    is defined for every description and raises nothing; it has no
    full stop in it, and it is the stripped description up to its first
    full stop, or all of it when it has none. The stripped description
    is the description without the white space characters in front and
    behind, those of Unicode as well as those of ASCII: it neither
    begins nor ends with one. *)
Theorem first_sentence_spec (description : string) :
  ∃ sentence rest : string,
    first_sentence description = Return sentence
    ∧ contains "." sentence = false
    ∧ strip description = sentence +:+ rest
    ∧ (rest = "" ∨ String.prefix "." rest = true)
    ∧ ∃ before after : string,
        description = before +:+ strip description +:+ after
        ∧ blank before ∧ blank after
        ∧ after_space (strip description) = None
        ∧ before_space (strip description) = None.
Proof.
  rewrite first_sentence_up_to_next. unfold up_to_next, contains.
  destruct (find (strip description) ".") as [k|] eqn:F.
  - exists (slice_to k (strip description)),
           (slice_from k (strip description)).
    rewrite (find_before_first _ "." k) by done.
    rewrite slice_to_from. split_and!; try done.
    + right. by apply find_Some_first in F as [F _].
    + apply strip_spec.
  - exists (strip description), "". rewrite F, text_app_nil_r.
    split_and!; auto. apply strip_spec.
Qed.

(** *** The script *)

Lemma main_script_unfold
    (run : AgentExecutor → string → outcome string) (st : State) :
  main_script run st
  = match create_pagila_agent "mistralai/mistral-7b-instruct:free"
            (printed ["Initializing Pagila Agent..."] st) with
    | (Return agent, st1) =>
        match run agent "How many films are there in the database?" with
        | Return answer =>
            (Return tt,
             printed [ nl +:+ "Processing query: How many films are there in the database?";
                       nl +:+ "Final Answer: " +:+ answer ] st1)
        | Raise e =>
            if is_Exception e
            then (Return tt,
                  printed [ nl +:+ "Processing query: How many films are there in the database?";
                            "An error occurred: " +:+ str e ] st1)
            else (Raise e,
                  printed [ nl +:+ "Processing query: How many films are there in the database?" ] st1)
        end
    | (Raise e, st1) =>
        if is_Exception e
        then (Return tt, printed ["An error occurred: " +:+ str e] st1)
        else (Raise e, st1)
    end.
Proof.
  unfold main_script, bind at 1. rewrite print_printed.
  unfold try_except, bind at 1.
  destruct (create_pagila_agent _ _) as [[agent|e] s1]; [|done].
  cbv [bind print emit lift].
  destruct (run agent _) as [answer|e].
  - unfold printed. simpl. by rewrite <-app_assoc.
  - destruct (is_Exception e); [|done].
    unfold printed. simpl. by rewrite <-app_assoc.
Qed.

(** X14: run as a script, [agent.py] raises nothing that derives from
    [Exception], whatever the agent does, and leaves the cache of
    [api.py] alone; once the agent is built, an answer of the agent is
    the last line printed, behind [Final Answer:], and an exception of
    the agent is printed behind [An error occurred:] and absorbed. *)
Theorem main_script_spec
    (run : AgentExecutor → string → outcome string) (st : State) :
  (∀ e, (main_script run st).1 = Raise e → is_Exception e = false)
  ∧ agent_cache (main_script run st).2 = agent_cache st
  ∧ (∀ (agent : AgentExecutor) (st1 : State),
       create_pagila_agent "mistralai/mistral-7b-instruct:free"
         (printed ["Initializing Pagila Agent..."] st)
       = (Return agent, st1) →
       match run agent "How many films are there in the database?" with
       | Return answer =>
           main_script run st
           = (Return tt,
              printed [ nl +:+ "Processing query: How many films are there in the database?";
                        nl +:+ "Final Answer: " +:+ answer ] st1)
       | Raise e =>
           is_Exception e = true →
           main_script run st
           = (Return tt,
              printed [ nl +:+ "Processing query: How many films are there in the database?";
                        "An error occurred: " +:+ str e ] st1)
       end).
Proof.
  rewrite main_script_unfold.
  destruct (create_pagila_agent "mistralai/mistral-7b-instruct:free"
              (printed ["Initializing Pagila Agent..."] st))
    as [o s1] eqn:Hc.
  pose proof (create_pagila_agent_spec _ _ _ _ Hc) as (_ & Hcache & _).
  simpl in Hcache.
  destruct o as [agent|e].
  - destruct (run agent "How many films are there in the database?")
      as [answer|e] eqn:Hrun.
    + split_and!; [done|done|]. intros ? ? [= <- <-]. by rewrite Hrun.
    + destruct (is_Exception e) eqn:He.
      * split_and!; [done|done|]. intros ? ? [= <- <-]. by rewrite Hrun.
      * split_and!; [by intros ? [= <-]|done|].
        intros ? ? [= <- <-]. rewrite Hrun. congruence.
  - destruct (is_Exception e) eqn:He.
    + split_and!; done.
    + split_and!; [by intros ? [= <-]|done|done].
Qed.

Lemma main_script_spec_witness :
  create_pagila_agent "mistralai/mistral-7b-instruct:free"
    (printed ["Initializing Pagila Agent..."] (initial demo_world))
  = (Return demo_agent,
     (create_pagila_agent "mistralai/mistral-7b-instruct:free"
        (printed ["Initializing Pagila Agent..."] (initial demo_world))).2)
  ∧ main_script (λ _ _, Return "There are 1000 films.")
      (initial demo_world)
    = (Return tt,
       printed [ nl +:+ "Processing query: How many films are there in the database?";
                 nl +:+ "Final Answer: " +:+ "There are 1000 films." ]
         (create_pagila_agent "mistralai/mistral-7b-instruct:free"
            (printed ["Initializing Pagila Agent..."]
               (initial demo_world))).2).
Proof.
  split; [vm_compute; reflexivity|].
  apply (proj2 (proj2 (main_script_spec (λ _ _, Return "There are 1000 films.")
                         (initial demo_world))) demo_agent).
  vm_compute. reflexivity.
Defined.

(** With the key of OpenRouter set and the client built, what [get_db]
    raises is what [create_pagila_agent] raises. *)
Lemma create_pagila_agent_db_raises (m key : string) (st st' : State)
    (e : exn) :
  startswith m "gpt-" = false →
  truthy (environ (world st) !! "OPENROUTER_API_KEY") = Some key →
  lib_raises (world st) ChatOpenAI_init = None →
  get_db (printed ["Using OpenRouter provider for model: " +:+ m] st)
  = (Raise e, st') →
  create_pagila_agent m st = (Raise e, st').
Proof.
  intros Hm Hkey Hlib Hdb. unfold create_pagila_agent. rewrite Hm.
  unfold bind at 1. unfold bind at 1. rewrite print_printed.
  cbv [get_llm getenv new_ChatOpenAI framework ret]. unfold bind at 1.
  cbn [world printed]. rewrite Hkey. unfold bind at 1.
  cbn [world printed]. rewrite Hlib.
  unfold bind at 1. by rewrite Hdb.
Qed.

(** When the client cannot be built, that is what
    [create_pagila_agent] raises, and the database is not touched. *)
Lemma create_pagila_agent_client_raises (m key : string) (st : State)
    (e : exn) :
  startswith m "gpt-" = false →
  truthy (environ (world st) !! "OPENROUTER_API_KEY") = Some key →
  lib_raises (world st) ChatOpenAI_init = Some e →
  create_pagila_agent m st
  = (Raise e, printed ["Using OpenRouter provider for model: " +:+ m] st).
Proof.
  intros Hm Hkey Hlib. unfold create_pagila_agent. rewrite Hm.
  unfold bind at 1. unfold bind at 1. rewrite print_printed.
  cbv [get_llm getenv new_ChatOpenAI framework ret]. unfold bind at 1.
  cbn [world printed]. rewrite Hkey. unfold bind at 1.
  cbn [world printed]. by rewrite Hlib.
Qed.

End AgentFacts.

(** ** [backend/api.py]: failures, the catalog and the chat endpoint *)

Module ApiFacts.

Import ProcessFacts ServerFacts CacheFacts AgentFacts.

(** *** Failures of [get_agent_for_model] *)

(** X3: [get_agent_for_model] raises nothing that derives from
    [Exception].  For a model not cached whose provider has no key: a
    [gpt-] model gives [None], after four printed lines, the last with
    the text of the [ValueError]; any other model raises
    [SystemExit(1)], which the function does not catch. *)
Theorem get_agent_for_model_failures :
  (∀ (m : string) (st st' : State) (e : exn),
     get_agent_for_model m st = (Raise e, st') → is_Exception e = false)
  ∧ (∀ (m : string) (st : State),
       agent_cache st !! m = None →
       startswith m "gpt-" = true →
       truthy (environ (world st) !! "OPENAI_API_KEY") = None →
       get_agent_for_model m st
       = (Return None,
          printed [ "Initializing agent for model: " +:+ m;
                    "Using OpenAI provider for model: " +:+ m;
                    "Error: OPENAI_API_KEY not found in .env";
                    "Failed to initialize agent for " +:+ m
                    +:+ ": OPENAI_API_KEY not set in environment" ] st))
  ∧ (∀ (m : string) (st : State),
       agent_cache st !! m = None →
       startswith m "gpt-" = false →
       truthy (environ (world st) !! "OPENROUTER_API_KEY") = None →
       get_agent_for_model m st
       = (Raise sys_exit_1,
          printed [ "Initializing agent for model: " +:+ m;
                    "Using OpenRouter provider for model: " +:+ m;
                    "Error: OPENROUTER_API_KEY not found in .env" ] st)).
Proof.
  split_and!.
  - intros m st st' e H%get_agent_for_model_spec. by destruct H as (_ & ? & _).
  - intros m st Hmiss Hm Hkey. rewrite get_agent_for_model_miss by done.
    rewrite create_pagila_agent_missing_key
      by (unfold key_variable; by rewrite Hm).
    unfold missing_key, missing_key_lines. rewrite Hm. simpl.
    by rewrite !printed_printed.
  - intros m st Hmiss Hm Hkey. rewrite get_agent_for_model_miss by done.
    rewrite create_pagila_agent_missing_key
      by (unfold key_variable; by rewrite Hm).
    unfold missing_key, missing_key_lines. rewrite Hm. simpl.
    by rewrite !printed_printed.
Qed.

Lemma get_agent_for_model_failures_witness :
  agent_cache demo_started !! "gpt-4o" = None
  ∧ startswith "gpt-4o" "gpt-" = true
  ∧ truthy (environ (world demo_started) !! "OPENAI_API_KEY") = None
  ∧ get_agent_for_model "gpt-4o" demo_started
    = (Return None,
       printed [ "Initializing agent for model: " +:+ "gpt-4o";
                 "Using OpenAI provider for model: " +:+ "gpt-4o";
                 "Error: OPENAI_API_KEY not found in .env";
                 "Failed to initialize agent for " +:+ "gpt-4o"
                 +:+ ": OPENAI_API_KEY not set in environment" ]
         demo_started).
Proof.
  do 3 (split; [vm_compute; reflexivity|]).
  apply (proj1 (proj2 get_agent_for_model_failures) "gpt-4o" demo_started);
    vm_compute; reflexivity.
Defined.

(** *** The import *)

(** X4: importing [api.py] ends the process when the key of OpenRouter
    is missing; with the key set and the client built, also when the
    address of the database is missing, the connection raises or
    listing the tables raises.  When building the client raises an
    [Exception], the import goes through, with an empty cache and no
    database handle. *)
Theorem boot_needs_openrouter_and_database (w : World) :
  (truthy (environ w !! "OPENROUTER_API_KEY") = None → boot w = None)
  ∧ (∀ key : string,
       truthy (environ w !! "OPENROUTER_API_KEY") = Some key →
       lib_raises w ChatOpenAI_init = None →
       truthy (environ w !! "POSTGRES_DB_URI") = None
       ∨ (∃ uri e, truthy (environ w !! "POSTGRES_DB_URI") = Some uri
                   ∧ from_uri w uri = Raise e)
       ∨ (∃ e, usable_table_names w = Raise e) →
       boot w = None)
  ∧ (∀ (key : string) (e : exn),
       truthy (environ w !! "OPENROUTER_API_KEY") = Some key →
       lib_raises w ChatOpenAI_init = Some e →
       is_Exception e = true →
       ∃ st, boot w = Some st
             ∧ agent_cache st = ∅ ∧ _db_instance st = None).
Proof.
  split_and!.
  - intros Hkey. rewrite boot_unfold, boot_miss.
    by rewrite create_pagila_agent_missing_key.
  - intros key Hkey Hlib Hdb. rewrite boot_unfold, boot_miss.
    destruct (get_db_must_raise
                (printed ["Using OpenRouter provider for model: "
                          +:+ "mistralai/mistral-7b-instruct:free"]
                   (printed ["Initializing agent for model: mistralai/mistral-7b-instruct:free"]
                      (initial w)))) as (e & s & Hraise); [done|done|].
    pose proof (get_db_raises _ _ _ Hraise) as (He & _).
    rewrite (create_pagila_agent_db_raises _ key _ s e); [|done..].
    by rewrite He.
  - intros key e Hkey Hlib He. rewrite boot_unfold, boot_miss.
    rewrite (create_pagila_agent_client_raises _ key _ e); [|done..].
    rewrite He. eauto.
Qed.

Lemma boot_needs_openrouter_and_database_witness :
  truthy (environ bare_world !! "OPENROUTER_API_KEY") = None
  ∧ boot bare_world = None.
Proof.
  split; [vm_compute; reflexivity|].
  apply (proj1 (boot_needs_openrouter_and_database bare_world)).
  vm_compute. reflexivity.
Defined.

(** *** The catalog *)

Lemma is_free_readable (entry : json) :
  readable entry = true → is_free entry = Return (priced_zero entry).
Proof.
  destruct entry as [| | | | |members]; try done.
  unfold is_free, readable, priced_zero. cbn [py_get obind].
  destruct (dict_get members "pricing" (JObject [])) as [| | | | |pricing];
    try done.
  intros _. cbn [py_get obind].
  by destruct (is_zero_text (dict_get pricing "prompt" JNull)).
Qed.

Lemma is_free_unreadable (entry : json) :
  readable entry = false →
  ∃ text, is_free entry = Raise (Exn AttributeError text).
Proof.
  destruct entry as [| | | | |members]; simpl; eauto.
  unfold is_free. cbn [py_get obind].
  destruct (dict_get members "pricing" (JObject [])); simpl; eauto.
  done.
Qed.

Lemma keep_free_all (data : list json) :
  Forall (λ entry, readable entry = true) data →
  keep_free data = Return (List.filter priced_zero data).
Proof.
  induction data as [|entry rest IH]; [done|].
  intros [Hentry Hrest]%Forall_cons. cbn [keep_free List.filter].
  rewrite (is_free_readable entry Hentry), (IH Hrest). simpl.
  by destruct (priced_zero entry).
Qed.

Lemma keep_free_some (data : list json) :
  Exists (λ entry, readable entry = false) data →
  ∃ text, keep_free data = Raise (Exn AttributeError text).
Proof.
  induction data as [|entry rest IH]; [by intros ?%Exists_nil|].
  intros H. cbn [keep_free].
  destruct (readable entry) eqn:Hentry.
  - rewrite (is_free_readable entry Hentry). simpl.
    apply Exists_cons in H as [H|H]; [congruence|].
    destruct (IH H) as [text ->]. simpl. eauto.
  - destruct (is_free_unreadable entry Hentry) as [text ->]. simpl. eauto.
Qed.

(** X9: the filter of the catalog keeps, in their order, the entries
    whose [pricing] has [prompt] and [completion] equal to the text
    [0], when every entry is a dict whose [pricing], if it has one, is a
    dict; and raises an [AttributeError] as soon as one entry is not. *)
Theorem keep_free_filter (data : list json) :
  (Forall (λ entry, readable entry = true) data →
   keep_free data = Return (List.filter priced_zero data))
  ∧ (Exists (λ entry, readable entry = false) data →
     ∃ text, keep_free data = Raise (Exn AttributeError text)).
Proof.
  split.
  - apply keep_free_all.
  - apply keep_free_some.
Qed.

Lemma keep_free_filter_witness :
  Forall (λ entry, readable entry = true)
    [free_model "z/zeta:free" "Zeta"; paid_model "p/paid" "Paid"]
  ∧ keep_free [free_model "z/zeta:free" "Zeta"; paid_model "p/paid" "Paid"]
    = Return (List.filter priced_zero
                [free_model "z/zeta:free" "Zeta"; paid_model "p/paid" "Paid"]).
Proof.
  assert (Forall (λ entry, readable entry = true)
            [free_model "z/zeta:free" "Zeta"; paid_model "p/paid" "Paid"])
    as H by (repeat constructor).
  split; [exact H|].
  exact (proj1 (keep_free_filter _) H).
Defined.

(** *** The sort by name *)

Lemma name_le_refl (x : json) : name_le x x.
Proof. unfold name_le. apply Is_true_true. apply (reflexivity (R := String.le)). Qed.

Lemma name_le_trans (x y z : json) : name_le x y → name_le y z → name_le x z.
Proof.
  unfold name_le. intros H1%Is_true_true H2%Is_true_true.
  apply Is_true_true. exact (transitivity (R := String.le) H1 H2).
Qed.

Lemma ltb_le (a b : string) : String.ltb a b = true → String.leb a b = true.
Proof. unfold String.ltb, String.leb. by destruct (String.compare a b). Qed.

Lemma ltb_neq (a b : string) : String.ltb a b = true → a ≠ b.
Proof.
  unfold String.ltb. intros H ->.
  pose proof (String.compare_antisym b b) as E.
  by destruct (String.compare b b).
Qed.

Lemma not_ltb_le (a b : string) : String.ltb a b = false → String.leb b a = true.
Proof.
  unfold String.ltb, String.leb. rewrite (String.compare_antisym a b).
  by destruct (String.compare b a).
Qed.

Lemma with_keys_named (l : list json) :
  Forall (λ entry, named entry = true) l →
  with_keys name_key l = Return ((λ x, (JString (name_of x), x)) <$> l).
Proof.
  induction 1 as [|x l Hx _ IH]; [done|].
  cbn [with_keys fmap list_fmap]. rewrite IH. unfold named in Hx.
  assert (name_key x = Return (JString (name_of x))) as ->; [|done].
  unfold name_of. by destruct (name_key x) as [[]|].
Qed.

Lemma insert_by_sorted (x : json) (l : list json) :
  StronglySorted name_le l →
  ∃ r : list json,
    insert_by (JString (name_of x)) x ((λ x, (JString (name_of x), x)) <$> l)
    = Return ((λ x, (JString (name_of x), x)) <$> r)
    ∧ r ≡ₚ x :: l
    ∧ StronglySorted name_le r
    ∧ ∀ n, List.filter (has_name n) r = List.filter (has_name n) (x :: l).
Proof.
  induction 1 as [|y l Hl IH Hy].
  - exists [x]. split_and!; [done|done|repeat constructor|done].
  - cbn [fmap list_fmap insert_by key_lt obind].
    destruct (String.ltb (name_of y) (name_of x)) eqn:E.
    + destruct IH as (r & -> & Hp & Hs & Hf). exists (y :: r).
      split_and!.
      * done.
      * rewrite Hp. apply perm_swap.
      * constructor; [done|]. rewrite Hp. constructor; [|done].
        by apply ltb_le.
      * intros n. cbn [List.filter]. rewrite Hf. cbn [List.filter].
        destruct (has_name n y) eqn:Ey, (has_name n x) eqn:Ex; try done.
        apply ltb_neq in E. unfold has_name in Ey, Ex.
        apply String.eqb_eq in Ey, Ex. congruence.
    + exists (x :: y :: l). split_and!; [done|done| |done].
      apply not_ltb_le in E.
      constructor; [by constructor|]. constructor; [done|].
      eapply Forall_impl; [exact Hy|]. intros z Hz.
      by apply (name_le_trans x y z).
Qed.

Lemma sort_keyed_sorted (l : list json) :
  ∃ r : list json,
    sort_keyed ((λ x, (JString (name_of x), x)) <$> l)
    = Return ((λ x, (JString (name_of x), x)) <$> r)
    ∧ r ≡ₚ l
    ∧ StronglySorted name_le r
    ∧ ∀ n, List.filter (has_name n) r = List.filter (has_name n) l.
Proof.
  induction l as [|x l (r & Hr & Hp & Hs & Hf)].
  - exists []. split_and!; [done|done|constructor|done].
  - cbn [fmap list_fmap sort_keyed]. rewrite Hr. cbn [obind].
    destruct (insert_by_sorted x r Hs) as (r' & -> & Hp' & Hs' & Hf').
    exists r'. split_and!; [done|by rewrite Hp', Hp|done|].
    intros n. rewrite Hf'. cbn [List.filter]. by rewrite Hf.
Qed.

(** The stable insertion sort meets what is asked of the sort. *)
Lemma demo_sort_by_name : sorts_by_name demo_sort.
Proof.
  intros l Hl. unfold demo_sort. rewrite (with_keys_named l Hl).
  cbn [obind].
  destruct (sort_keyed_sorted l) as (r & -> & Hp & Hs & Hf).
  exists r. split_and!; [|done..].
  cbn [obind]. f_equal. rewrite <- list_fmap_compose.
  apply list_fmap_id.
Qed.

Section Catalog.

Variable list_sort : (json → outcome json) → list json → outcome (list json).

(** What [get_models] gives once the catalog came back with status 200
    and a body that is JSON. *)
Lemma get_models_200 (r : Response) (body : json) (st : State) :
  status_code r = 200%Z →
  response_json r = Return body →
  get_models list_sort (Return r) st
  = match obind (py_get body "data" (JArray [])) (λ data,
          obind (py_iter data) (λ models,
          obind (keep_free models) (list_sort name_key))) with
    | Return sorted =>
        (Return (JObject [("models", JArray (openai_models ++ sorted))]),
         st)
    | Raise e =>
        if is_Exception e
        then (Return (JObject [("models", JArray openai_models)]),
              printed ["Warning: Could not connect to OpenRouter: "
                       +:+ str e] st)
        else (Raise e, st)
    end.
Proof.
  intros Hs Hb.
  cbv [get_models fetch_free_models bind try_except lift print emit ret].
  rewrite Hs, Hb. simpl.
  destruct (py_get body "data" (JArray [])) as [data|e]; simpl;
    [|by destruct (is_Exception e)].
  destruct (py_iter data) as [models|e]; simpl;
    [|by destruct (is_Exception e)].
  destruct (keep_free models) as [free|e]; simpl;
    [|by destruct (is_Exception e)].
  destruct (list_sort name_key free) as [sorted|e]; simpl;
    [done|by destruct (is_Exception e)].
Qed.

(** X10: let the sort do what Python's does on texts: on a list whose
    names are all texts it returns the same items in ascending order
    of name, the items of one name in the order they had. When the
    catalog comes back with status 200 and a body that is a dict whose
    [data] is a list of entries the filter can read, and each entry
    priced zero has a text for name or no name, [get_models] prints
    nothing and answers with the three fixed descriptors followed by
    the entries priced zero, each as often as the catalog has it, in
    ascending order of name, entries of one name in the order of the
    catalog. *)
Theorem get_models_lists_free_models (r : Response)
    (body : list (string * json)) (entries : list json) (st : State) :
  sorts_by_name list_sort →
  status_code r = 200%Z →
  response_json r = Return (JObject body) →
  dict_get body "data" (JArray []) = JArray entries →
  Forall (λ entry, readable entry = true) entries →
  Forall (λ entry, priced_zero entry = true → named entry = true)
    entries →
  ∃ sorted : list json,
    get_models list_sort (Return r) st
    = (Return (JObject [("models", JArray (openai_models ++ sorted))]),
       st)
    ∧ sorted ≡ₚ List.filter priced_zero entries
    ∧ StronglySorted name_le sorted
    ∧ ∀ n : string,
        List.filter (has_name n) sorted
        = List.filter (has_name n) (List.filter priced_zero entries).
Proof.
  intros Hsort Hs Hb Hdata Hall Hnamed.
  rewrite (get_models_200 r (JObject body) st Hs Hb).
  cbn [py_get obind]. rewrite Hdata. cbn [py_iter obind].
  rewrite (keep_free_all entries Hall). cbn [obind].
  destruct (Hsort (List.filter priced_zero entries))
    as (sorted & -> & Hp & Hsd & Hf).
  - apply List.Forall_forall. intros x [Hin Hz]%filter_In.
    rewrite List.Forall_forall in Hnamed. by apply Hnamed.
  - by exists sorted.
Qed.

(** X11: one entry of the catalog that is no dict, or whose [pricing]
    is no dict, loses the whole catalog: [get_models] answers with the
    three fixed descriptors alone and prints one warning, the one for
    a failed connection. *)
Theorem get_models_drops_broken_catalog (r : Response)
    (body : list (string * json)) (entries : list json) (st : State) :
  status_code r = 200%Z →
  response_json r = Return (JObject body) →
  dict_get body "data" (JArray []) = JArray entries →
  Exists (λ entry, readable entry = false) entries →
  ∃ text : string,
    get_models list_sort (Return r) st
    = (Return (JObject [("models", JArray openai_models)]),
       printed ["Warning: Could not connect to OpenRouter: " +:+ text] st).
Proof.
  intros Hs Hb Hdata Hsome.
  rewrite (get_models_200 r (JObject body) st Hs Hb).
  cbn [py_get obind]. rewrite Hdata. cbn [py_iter obind].
  destruct (keep_free_some entries Hsome) as [text ->].
  cbn [obind]. eauto.
Qed.

(** X12: whatever the fetch gives, [get_models] changes the state by
    at most one printed line: the cache, the database handle and the
    world stay as they are. *)
Theorem get_models_prints_at_most_once (fetched : outcome Response)
    (st : State) :
  ∃ lines : list string,
    (get_models list_sort fetched st).2 = printed lines st
    ∧ length lines ≤ 1.
Proof.
  assert (st = printed [] st) as Hnone.
  { destruct st. unfold printed. simpl. by rewrite app_nil_r. }
  cbv [get_models fetch_free_models bind try_except lift print emit ret].
  repeat case_match; simplify_eq/=;
    first [ exists []; split; [exact Hnone|simpl; lia]
          | eexists [_]; split; [reflexivity|simpl; lia] ].
Qed.

End Catalog.

Lemma get_models_lists_free_models_witness :
  status_code demo_catalog = 200%Z
  ∧ ∃ sorted : list json,
      get_models demo_sort (Return demo_catalog) (initial demo_world)
      = (Return (JObject [("models", JArray (openai_models ++ sorted))]),
         initial demo_world)
      ∧ sorted ≡ₚ [ free_model "z/zeta:free" "Zeta";
                    free_model "a/alpha:free" "Alpha" ]
      ∧ StronglySorted name_le sorted.
Proof.
  split; [reflexivity|].
  destruct (get_models_lists_free_models demo_sort demo_catalog
              [("data", JArray [ free_model "z/zeta:free" "Zeta";
                                 paid_model "p/paid" "Paid";
                                 free_model "a/alpha:free" "Alpha" ])]
              [ free_model "z/zeta:free" "Zeta"; paid_model "p/paid" "Paid";
                free_model "a/alpha:free" "Alpha" ]
              (initial demo_world))
    as (sorted & H1 & H2 & H3 & _).
  - apply demo_sort_by_name.
  - reflexivity.
  - reflexivity.
  - reflexivity.
  - repeat constructor.
  - repeat constructor.
  - exists sorted. split; [exact H1|]. split; [exact H2|exact H3].
Defined.

Lemma get_models_drops_broken_catalog_witness :
  Exists (λ entry, readable entry = false)
    [free_model "a/alpha:free" "Alpha"; JNull]
  ∧ ∃ text : string,
      get_models demo_sort (Return broken_catalog) (initial demo_world)
      = (Return (JObject [("models", JArray openai_models)]),
         printed ["Warning: Could not connect to OpenRouter: " +:+ text]
           (initial demo_world)).
Proof.
  assert (Exists (λ entry, readable entry = false)
            [free_model "a/alpha:free" "Alpha"; JNull]) as H.
  { apply Exists_cons_tl, Exists_cons_hd. reflexivity. }
  split; [exact H|].
  apply (get_models_drops_broken_catalog demo_sort broken_catalog
           [("data", JArray [free_model "a/alpha:free" "Alpha"; JNull])]
           [free_model "a/alpha:free" "Alpha"; JNull]);
    [reflexivity..|exact H].
Defined.

(** *** The chat endpoint *)

Section Chat.

Variable float : Type.
Variable float_sub : float → float → float.
Variable round : float → Z → float.

(** [chat], case by case. *)
Lemma chat_unfold (request : QueryRequest) (inv : Invocation float)
    (st : State) :
  chat float float_sub round request inv st
  = match get_agent_for_model
            (or_else (model request) "mistralai/mistral-7b-instruct:free")
            st with
    | (Raise e, st1) => (Raise e, st1)
    | (Return None, st1) =>
        (Raise (Exn (HTTPException 500)
                  ("Failed to initialize agent for model "
                   +:+ or_else (model request)
                         "mistralai/mistral-7b-instruct:free")), st1)
    | (Return (Some agent), st1) =>
        match agent_run float inv agent (query request) with
        | Return text =>
            (Return
               {| response := text;
                  metadata :=
                    Some {| metadata_model :=
                              or_else (model request) "Unknown Model";
                            metadata_duration :=
                              round (float_sub (time_after float inv)
                                       (time_before float inv)) 2 |} |},
             st1)
        | Raise e =>
            if is_Exception e
            then (Raise (http_error e), logged (failure_log e) st1)
            else (Raise e, st1)
        end
    end.
Proof.
  unfold chat, bind at 1.
  destruct (get_agent_for_model _ st) as [[[agent|]|e] st1]; try done.
  cbv [try_except bind lift ret print emit raise].
  destruct (agent_run float inv agent (query request)) as [text|e];
    [done|].
  unfold http_error, failure_log, logged.
  destruct (is_Exception e); [|done].
  destruct (is_RateLimitError e); simpl; by rewrite <-!app_assoc.
Qed.


(** X7: when a chat request names a model and succeeds, the agent
    that ran is the one [get_agent_for_model] gives for that model, the
    response is what the agent returned, and the model reported is the
    one named. *)
Theorem chat_reports_named_model (request : QueryRequest)
    (inv : Invocation float) (st st' : State) (r : QueryResponse float)
    (m : string) :
  model request = Some m →
  m ≠ "" →
  chat float float_sub round request inv st = (Return r, st') →
  ∃ agent : AgentExecutor,
    get_agent_for_model m st = (Return (Some agent), st')
    ∧ agent_run float inv agent (query request)
      = Return (response float r)
    ∧ metadata float r
      = Some {| metadata_model := m;
                metadata_duration :=
                  round (float_sub (time_after float inv)
                           (time_before float inv)) 2 |}.
Proof.
  intros Hm Hne. rewrite chat_unfold, Hm.
  assert (∀ d, or_else (Some m) d = m) as Hor by (by destruct m).
  rewrite !Hor.
  destruct (get_agent_for_model m st) as [[[agent|]|e1] st1]; try done.
  destruct (agent_run float inv agent (query request)) as [text|e0]
    eqn:Hrun.
  - intros [= <- <-]. by exists agent.
  - by destruct (is_Exception e0).
Qed.

(** X8: when the agent raises an [Exception], [chat] logs a header,
    the traceback and a footer, and one more line for a rate limit,
    behind what resolving the agent left; the agent stays cached for
    the model of the request. *)
Theorem chat_failure_logged (request : QueryRequest)
    (inv : Invocation float) (st st1 : State) (agent : AgentExecutor)
    (e : exn) :
  get_agent_for_model
    (or_else (model request) "mistralai/mistral-7b-instruct:free") st
  = (Return (Some agent), st1) →
  agent_run float inv agent (query request) = Raise e →
  is_Exception e = true →
  (chat float float_sub round request inv st).2
  = logged ([ Print "------------- ERROR IN CHAT ENDPOINT -------------";
              Traceback e;
              Print "--------------------------------------------------" ]
            ++ (if is_RateLimitError e
                then [Print "The LLM Provider (OpenRouter) returned a 429 Rate Limit Error."]
                else [])) st1
  ∧ agent_cache (chat float float_sub round request inv st).2
      !! or_else (model request) "mistralai/mistral-7b-instruct:free"
    = Some agent.
Proof.
  intros Hres Hrun He. rewrite chat_unfold, Hres, Hrun, He.
  split; [done|]. simpl.
  apply get_agent_for_model_spec in Hres as [_ [[? ->]|(_ & -> & _)]];
    [done|apply lookup_insert_eq].
Qed.

End Chat.


Lemma chat_reports_named_model_witness :
  "meta-llama/llama-3-8b-instruct:free" ≠ ""
  ∧ ∃ agent : AgentExecutor,
      get_agent_for_model "meta-llama/llama-3-8b-instruct:free" demo_started
      = (Return (Some agent),
         (chat Z Z.sub demo_round
            {| query := "hi";
               model := Some "meta-llama/llama-3-8b-instruct:free" |}
            demo_invocation demo_started).2)
      ∧ agent_run Z demo_invocation agent "hi" = Return greeting
      ∧ Some {| metadata_model := "meta-llama/llama-3-8b-instruct:free";
                metadata_duration := 3%Z |}
        = Some {| metadata_model := "meta-llama/llama-3-8b-instruct:free";
                  metadata_duration :=
                    demo_round (1700000003 - 1700000000)%Z 2 |}.
Proof.
  split; [discriminate|].
  apply (chat_reports_named_model Z Z.sub demo_round
           {| query := "hi";
              model := Some "meta-llama/llama-3-8b-instruct:free" |}
           demo_invocation demo_started
           (chat Z Z.sub demo_round
              {| query := "hi";
                 model := Some "meta-llama/llama-3-8b-instruct:free" |}
              demo_invocation demo_started).2
           {| response := greeting;
              metadata :=
                Some {| metadata_model := "meta-llama/llama-3-8b-instruct:free";
                        metadata_duration := 3%Z |} |}
           "meta-llama/llama-3-8b-instruct:free").
  - reflexivity.
  - discriminate.
  - vm_compute. reflexivity.
Defined.

Lemma chat_failure_logged_witness :
  get_agent_for_model (or_else None "mistralai/mistral-7b-instruct:free")
    demo_started
  = (Return (Some demo_agent), demo_started)
  ∧ (chat Z Z.sub demo_round {| query := "hi"; model := None |}
       (failing_invocation timed_out) demo_started).2
    = logged ([ Print "------------- ERROR IN CHAT ENDPOINT -------------";
                Traceback timed_out;
                Print "--------------------------------------------------" ]
              ++ (if is_RateLimitError timed_out
                  then [Print "The LLM Provider (OpenRouter) returned a 429 Rate Limit Error."]
                  else [])) demo_started.
Proof.
  split; [vm_compute; reflexivity|].
  apply (chat_failure_logged Z Z.sub demo_round
           {| query := "hi"; model := None |}
           (failing_invocation timed_out) demo_started demo_started
           demo_agent timed_out).
  - vm_compute. reflexivity.
  - reflexivity.
  - reflexivity.
Defined.

(** *** The cache is keyed by the model of the client *)

Lemma get_agent_for_model_routed (m : string) (st st' : State)
    (agent : AgentExecutor) :
  get_agent_for_model m st = (Return (Some agent), st') →
  agent_cache st !! m = Some agent
  ∨ routed (environ (world st)) m (agent_llm agent).
Proof.
  destruct (agent_cache st !! m) as [cached|] eqn:Hm.
  - rewrite (get_agent_for_model_hit m st cached Hm).
    intros [= <- <-]. by left.
  - rewrite (get_agent_for_model_miss m st Hm).
    destruct (create_pagila_agent m _) as [[a|e] s1] eqn:Hc.
    + intros [= <- <-]. right.
      by apply create_pagila_agent_returns in Hc as [Hc _].
    + by destruct (is_Exception e).
Qed.

Section Keys.

Variable list_sort : (json → outcome json) → list json → outcome (list json).
Variable float : Type.
Variable float_sub : float → float → float.
Variable round : float → Z → float.

Lemma step_routed (i : input float) (st st' : State) :
  step list_sort float float_sub round i st = Some st' →
  (∀ m agent, agent_cache st !! m = Some agent →
              ∃ env, routed env m (agent_llm agent)) →
  ∀ m agent, agent_cache st' !! m = Some agent →
             ∃ env, routed env m (agent_llm agent).
Proof.
  intros Hstep Hinv m agent.
  destruct i as [|fetched|request inv|w]; simpl in Hstep.
  - injection Hstep as <-. apply Hinv.
  - destruct (step_cache list_sort float float_sub round
                (GetModels float fetched) st st')
      as [->|(a & m' & Hr & _)]; [done|apply Hinv|done].
  - destruct (chat _ _ _ _ _ _) as [o s] eqn:E.
    apply chat_resolves in E as (o1 & s1 & E1 & (_ & Hc & _) & _ & _).
    assert (s = st') as <-.
    { destruct o; simpl in Hstep; [|case_match]; congruence. }
    rewrite Hc.
    pose proof (get_agent_for_model_spec _ _ _ _ E1) as [_ Hspec].
    destruct o1 as [[a|]|e].
    + destruct Hspec as [[_ ->]|(Hmiss & -> & _)]; [apply Hinv|].
      intros [[<- <-]|[_ ?]]%lookup_insert_Some; [|by apply Hinv].
      apply get_agent_for_model_routed in E1 as [?|?]; [congruence|eauto].
    + destruct Hspec as (_ & -> & _). apply Hinv.
    + destruct Hspec as (_ & _ & -> & _). apply Hinv.
  - injection Hstep as <-. apply Hinv.
Qed.

Lemma serve_routed (inputs : list (input float)) (st st' : State) :
  serve list_sort float float_sub round inputs st = Some st' →
  (∀ m agent, agent_cache st !! m = Some agent →
              ∃ env, routed env m (agent_llm agent)) →
  ∀ m agent, agent_cache st' !! m = Some agent →
             ∃ env, routed env m (agent_llm agent).
Proof.
  revert st. induction inputs as [|i inputs IH]; intros st; cbn [serve].
  - by intros [= <-].
  - destruct (step _ _ _ _ i st) as [s|] eqn:E; [|done]. intros H Hinv.
    apply (IH s H). by apply (step_routed i st).
Qed.

Lemma boot_routed (w : World) (st : State) :
  boot w = Some st →
  ∀ m agent, agent_cache st !! m = Some agent →
             ∃ env, routed env m (agent_llm agent).
Proof.
  rewrite boot_unfold.
  destruct (get_agent_for_model _ (initial w)) as [[a|e] s] eqn:E; [|done].
  intros [= <-] m agent Hm.
  pose proof (get_agent_for_model_spec _ _ _ _ E) as [_ Hspec].
  destruct a as [a|].
  - destruct Hspec as [[Hhit _]|(_ & Hc & _)]; [done|].
    rewrite Hc in Hm.
    apply lookup_insert_Some in Hm as [[<- <-]|[_ Hm]]; [|done].
    apply get_agent_for_model_routed in E as [?|?]; [done|eauto].
  - destruct Hspec as (_ & Hc & _). by rewrite Hc in Hm.
Qed.

(** X15: over a run of the server, the agent cached for a model holds
    a client for that very model, with temperature 0 and a key that is
    not empty, and with no base address exactly when the name of the
    model starts with [gpt-], the base address of OpenRouter
    otherwise. *)
Theorem cached_agents_keyed (w : World) (inputs : list (input float))
    (st : State) (m : string) (agent : AgentExecutor) :
  process list_sort float float_sub round w inputs = Some st →
  agent_cache st !! m = Some agent →
  llm_model (agent_llm agent) = m
  ∧ temperature (agent_llm agent) = 0%Z
  ∧ openai_api_key (agent_llm agent) ≠ ""
  ∧ openai_api_base (agent_llm agent)
    = (if startswith m "gpt-" then None
       else Some "https://openrouter.ai/api/v1").
Proof.
  unfold process. destruct (boot w) as [s|] eqn:Hboot; [|done].
  intros Hserve Hm.
  destruct (serve_routed inputs s st Hserve (boot_routed w s Hboot)
              m agent Hm) as (env & H1 & H2 & H3 & _ & H5).
  by unfold base_of in H3.
Qed.

End Keys.

Lemma cached_agents_keyed_witness :
  demo_process demo_world demo_inputs = Some demo_final
  ∧ agent_cache demo_final !! "meta-llama/llama-3-8b-instruct:free"
    = Some llama_agent
  ∧ llm_model (agent_llm llama_agent) = "meta-llama/llama-3-8b-instruct:free"
  ∧ temperature (agent_llm llama_agent) = 0%Z.
Proof.
  split; [vm_compute; reflexivity|]. split; [vm_compute; reflexivity|].
  pose proof (cached_agents_keyed demo_sort Z Z.sub demo_round demo_world
                demo_inputs demo_final "meta-llama/llama-3-8b-instruct:free"
                llama_agent) as H.
  split; apply H; vm_compute; reflexivity.
Defined.

End ApiFacts.
